(** * H3 Route Explorer: cell roles, route lookup and selection

    A shallow embedding of [routes_visualization.py]: the cell table and its
    role sets, the route table indexed by (departure, destination), the
    session's origin/target slots, and the click handler that resolves a map
    click to a cell and feeds it to the selection logic.

    Conventions.  A pandas frame is the list of its rows, in row order.
    Floating-point columns are IEEE values ([spec_float]).  A cell id is a
    Python value that is either an [int] or a [str].  The calls into shapely
    and into the spatial index are parameters of the section that embeds the
    click handler; the part of their contract that the handler relies on is
    stated as hypotheses where it is used. *)

From Corelib Require Import Floats.SpecFloat.
From stdpp Require Import base decidable countable list strings gmap.

Local Open Scope Z_scope.

(** ** Python values *)

Module Py.

(** The [cell] column holds either integers or strings. *)
Inductive CellId : Type :=
| CellInt (z : Z)
| CellStr (s : string).

#[global] Instance CellId_eq_dec : EqDecision CellId.
Proof. solve_decision. Defined.

Definition CellId_encode (c : CellId) : Z + string :=
  match c with
  | CellInt z => inl z
  | CellStr s => inr s
  end.

Definition CellId_decode (x : Z + string) : CellId :=
  match x with
  | inl z => CellInt z
  | inr s => CellStr s
  end.

#[global] Instance CellId_countable : Countable CellId.
Proof.
  apply (inj_countable' CellId_encode CellId_decode).
  intros []; reflexivity.
Defined.

(** [bool(x)] for a cell id: an integer is false when it is zero, a string
    when it is empty. *)
Definition truthy (c : CellId) : bool :=
  match c with
  | CellInt z => negb (z =? 0)
  | CellStr s => negb (String.eqb s "")
  end.

(** [bool(x)] for a session slot, which holds [None] or a cell id. *)
Definition truthy_slot (s : option CellId) : bool :=
  match s with
  | None => false
  | Some c => truthy c
  end.

(** [x > 0] on a float column; false for NaN. *)
Definition gt_zero (v : spec_float) : bool := SFltb (S754_zero false) v.

(** The binary64 value nearest to [m * 2^e]. *)
Definition f64 (m e : Z) : spec_float := binary_normalize 53 1024 m e false.

(** The exceptions that the modelled pandas calls can raise. *)
Inductive PyError : Type :=
| IndexError
| KeyError.

(** A computation that returns a value or raises. *)
Inductive result (A : Type) : Type :=
| Ok (a : A)
| Raise (e : PyError).

Arguments Ok {A} a.
Arguments Raise {A} e.

#[global] Instance result_ret : MRet result := fun A a => Ok a.

#[global] Instance result_bind : MBind result := fun A B k m =>
  match m with
  | Ok a => k a
  | Raise e => Raise e
  end.

End Py.
Export Py.

(** ** Geometry values handed to shapely *)

(** [Point(lon, lat)]. *)
Record Point : Type := mkPoint { pt_x : spec_float; pt_y : spec_float }.

(** A bounds tuple [(minx, miny, maxx, maxy)]. *)
Record BBox : Type := mkBBox {
  minx : spec_float; miny : spec_float;
  maxx : spec_float; maxy : spec_float
}.

(** [point.bounds]: the degenerate box at the point. *)
Definition point_bounds (p : Point) : BBox :=
  mkBBox (pt_x p) (pt_y p) (pt_x p) (pt_y p).

(** Two boxes intersect when they overlap on both axes, borders included. *)
Definition bbox_intersects (a b : BBox) : bool :=
  SFleb (minx a) (maxx b) && SFleb (minx b) (maxx a) &&
  SFleb (miny a) (maxy b) && SFleb (miny b) (maxy a).

(** ** The cell table *)

(** One row of [h3_abundance.csv] after [load_cells]; [Geom] is the type of
    the values of the [geometry] column. *)
Record CellRow (Geom : Type) : Type := mkCellRow {
  cell : CellId;
  geometry : Geom;
  lat : spec_float;
  lng : spec_float;
  value_wintering : spec_float;
  value_breeding : spec_float
}.

Arguments mkCellRow {Geom}.
Arguments cell {Geom}.
Arguments geometry {Geom}.
Arguments lat {Geom}.
Arguments lng {Geom}.
Arguments value_wintering {Geom}.
Arguments value_breeding {Geom}.

(** [set(df.loc[df["value_wintering"] > 0, "cell"])] *)
Definition departure_cells {Geom} (df : list (CellRow Geom)) : gset CellId :=
  list_to_set (map cell (List.filter (fun r => gt_zero (value_wintering r)) df)).

(** [set(df.loc[df["value_breeding"] > 0, "cell"])] *)
Definition destination_cells {Geom} (df : list (CellRow Geom)) : gset CellId :=
  list_to_set (map cell (List.filter (fun r => gt_zero (value_breeding r)) df)).

(** The two role sets, computed one after the other at load time. *)
Definition classify {Geom} (df : list (CellRow Geom)) : gset CellId * gset CellId :=
  (departure_cells df, destination_cells df).

(** ** The route table *)

(** A polyline: [(lat, lon)] pairs. *)
Definition Path : Type := list (spec_float * spec_float).

(** One row of the pickled route frame. *)
Record RouteRecord : Type := mkRouteRecord {
  departure_cell : CellId;
  destination_cell : CellId;
  path : Path;
  extra : list (string * spec_float)
}.

(** What is left of a row once the two key columns have moved to the index. *)
Record RouteData : Type := mkRouteData {
  rd_path : Path;
  rd_extra : list (string * spec_float)
}.

Definition RouteKey : Type := (CellId * CellId)%type.

(** A frame with a two-level index: the index entry and the data of every
    row, in row order.  Nothing requires the index entries to be distinct. *)
Definition RoutesIdx : Type := list (RouteKey * RouteData).

Definition route_key (r : RouteRecord) : RouteKey :=
  (departure_cell r, destination_cell r).

Definition route_data (r : RouteRecord) : RouteData :=
  mkRouteData (path r) (extra r).

(** [df.set_index(["departure_cell", "destination_cell"])]: every row is
    kept, in order. *)
Definition set_index (df : list RouteRecord) : RoutesIdx :=
  map (fun r => (route_key r, route_data r)) df.

(** [load_routes()], on the frame that [pd.read_pickle] returned. *)
Definition load_routes (pickled : list RouteRecord) : RoutesIdx :=
  set_index pickled.

(** [key in routes_idx.index] *)
Definition index_contains (idx : RoutesIdx) (key : RouteKey) : bool :=
  bool_decide (key ∈ idx.*1).

(** [routes_idx.index.is_unique] *)
Definition index_is_unique (idx : RoutesIdx) : bool :=
  bool_decide (NoDup idx.*1).

(** The data of the rows whose index entry is [key], in row order. *)
Definition rows_at (idx : RoutesIdx) (key : RouteKey) : list RouteData :=
  (List.filter (fun e => bool_decide (e.1 = key)) idx).*2.

(** What [.loc] hands back for a full key that the index holds: one row as
    a Series, or several rows as a sub-frame. *)
Inductive LocResult : Type :=
| LocSeries (row : RouteData)
| LocFrame (rows : list RouteData).

(** How [.loc] hands back the only row of a key when other keys of the index
    are duplicated.  The repository pins no pandas version: pandas 3 hands
    the row back as a Series, pandas 2 as a frame of one row. *)
Inductive SingleRow : Type :=
| SingleRowSeries
| SingleRowFrame.

(** [routes_idx.loc[key]] for a key that the index holds, [r :: rest] being
    the rows with that key, in row order.  Several rows come back as the
    sub-frame of these rows.  A single row comes back as a Series when the
    index is unique, and as [policy] says when it is not. *)
Definition loc (policy : SingleRow) (idx : RoutesIdx) (r : RouteData)
  (rest : list RouteData) : LocResult :=
  match rest with
  | _ :: _ => LocFrame (r :: rest)
  | [] =>
      if index_is_unique idx then LocSeries r
      else
        match policy with
        | SingleRowSeries => LocSeries r
        | SingleRowFrame => LocFrame [r]
        end
  end.

(** The rows a lookup result consists of. *)
Definition loc_rows (res : LocResult) : list RouteData :=
  match res with
  | LocSeries r => [r]
  | LocFrame rs => rs
  end.

(** The guarded lookup of the script:
    [if key in routes_idx.index: route_row = routes_idx.loc[key]],
    with [route_row = None] otherwise.  The lookup is made only for a key
    that the index holds, which then has a row. *)
Definition get (policy : SingleRow) (idx : RoutesIdx) (o d : CellId)
  : result (option LocResult) :=
  let key := (o, d) in
  if index_contains idx key then
    match rows_at idx key with
    | r :: rest => Ok (Some (loc policy idx r rest))
    | [] => Ok None
    end
  else Ok None.

(** ** Session state *)

Record SessionState : Type := mkSession {
  origin : option CellId;
  target : option CellId
}.

Definition set_origin (v : option CellId) (st : SessionState) : SessionState :=
  mkSession v (target st).

Definition set_target (v : option CellId) (st : SessionState) : SessionState :=
  mkSession (origin st) v.

(** The two slots as they are when the session starts. *)
Definition EmptyState : SessionState := mkSession None None.

(** The body of the Reset button:
    [origin = None; target = None; st.rerun()]. *)
Definition reset (st : SessionState) : SessionState :=
  set_target None (set_origin None st).

(** [route_row] as the script computes it on every run: the lookup is made
    only when both slots are truthy. *)
Definition currentRoute (policy : SingleRow) (idx : RoutesIdx) (st : SessionState)
  : result (option LocResult) :=
  if truthy_slot (origin st) && truthy_slot (target st) then
    match origin st, target st with
    | Some o, Some t => get policy idx o t
    | _, _ => Ok None
    end
  else Ok None.

(** ** Map layers for the selection *)

Inductive Layer (Geom : Type) : Type :=
| GeoJson (g : Geom) (color : string).

Arguments GeoJson {Geom}.

(** [draw_h3(cell, color)]: the first row with that cell id, if any. *)
Definition draw_h3 {Geom} (df : list (CellRow Geom)) (c : CellId) (color : string)
  : list (Layer Geom) :=
  match List.filter (fun r => bool_decide (cell r = c)) df with
  | [] => []
  | r :: _ => [GeoJson (geometry r) color]
  end.

(** [if slot: draw_h3(slot, color)] *)
Definition draw_slot {Geom} (df : list (CellRow Geom)) (slot : option CellId)
  (color : string) : list (Layer Geom) :=
  if truthy_slot slot then
    match slot with
    | Some c => draw_h3 df c color
    | None => []
    end
  else [].

(** The layers added for the selected cells: origin in green, then target
    in red. *)
Definition draw_selected {Geom} (df : list (CellRow Geom)) (st : SessionState)
  : list (Layer Geom) :=
  draw_slot df (origin st) "green" ++ draw_slot df (target st) "red".

(** ** Handling a click *)

(** What a run of the handler ends with: a rerun of the script, a warning
    shown to the user, or nothing. *)
Inductive Outcome : Type :=
| Rerun
| Warning (msg : string)
| Continue.

Section ClickHandler.

Context {Geom : Type}.

(** [geometry.contains(point)] of shapely. *)
Variable contains : Geom -> Point -> bool.

(** [df.sindex.intersection(bounds)]: the positions of the candidate rows,
    in the order in which the index enumerates them. *)
Variable sindex_intersection : list Geom -> BBox -> list nat.

(** [df.iloc[idx]] for a list of positions; a position past the end
    raises. *)
Fixpoint iloc (df : list (CellRow Geom)) (idx : list nat)
  : result (list (CellRow Geom)) :=
  match idx with
  | [] => Ok []
  | i :: rest =>
      match df !! i with
      | None => Raise IndexError
      | Some r => rows ← iloc df rest; mret (r :: rows)
      end
  end.

(** The rows of [candidates[candidates.contains(point)]]. *)
Definition hits (candidates : list (CellRow Geom)) (point : Point)
  : list (CellRow Geom) :=
  List.filter (fun r => contains (geometry r) point) candidates.

(** From the click coordinates to the cell id of the first hit, or [None]
    when [hit] is empty. *)
Definition resolvePoint (df : list (CellRow Geom)) (lon lat : spec_float)
  : result (option CellId) :=
  let point := mkPoint lon lat in
  let idx := sindex_intersection (map geometry df) (point_bounds point) in
  candidates ← iloc df idx;
  match hits candidates point with
  | [] => mret None
  | r :: _ => mret (Some (cell r))
  end.

(** The selection branch, for the cell that was hit. *)
Definition trySelect (departure destination : gset CellId) (c : CellId)
  (st : SessionState) : Outcome * SessionState :=
  match origin st with
  | None =>
      if bool_decide (c ∈ departure) then (Rerun, set_origin (Some c) st)
      else (Warning "Not a valid departure cell", st)
  | Some _ =>
      match target st with
      | None =>
          if bool_decide (c ∈ destination) then (Rerun, set_target (Some c) st)
          else (Warning "Not a valid destination cell", st)
      | Some _ => (Continue, st)
      end
  end.

(** The whole handler; [last_clicked] is [map_data.get("last_clicked")] as a
    pair [(lat, lng)]. *)
Definition handle_click (df : list (CellRow Geom))
  (last_clicked : option (spec_float * spec_float)) (st : SessionState)
  : result (Outcome * SessionState) :=
  match last_clicked with
  | None => mret (Continue, st)
  | Some (lat, lon) =>
      hit ← resolvePoint df lon lat;
      match hit with
      | None => mret (Continue, st)
      | Some c => mret (trySelect (departure_cells df) (destination_cells df) c st)
      end
  end.

End ClickHandler.

(** [trySelect] repeated on the same cell. *)
Fixpoint select_repeatedly (departure destination : gset CellId) (c : CellId)
  (n : nat) (st : SessionState) : SessionState :=
  match n with
  | O => st
  | S n' =>
      select_repeatedly departure destination c n'
        (trySelect departure destination c st).2
  end.

(** ** A reference geometry: axis-aligned boxes

    Boxes stand in for polygons in the examples: a box contains the points
    strictly inside it, it is its own envelope, and the index is a scan of
    the envelopes. *)

Definition box_contains (b : BBox) (p : Point) : bool :=
  SFltb (minx b) (pt_x p) && SFltb (pt_x p) (maxx b) &&
  SFltb (miny b) (pt_y p) && SFltb (pt_y p) (maxy b).

(** The positions, counted from [start], of the geometries whose envelope
    meets the query box; the last matching position comes first. *)
Fixpoint scan_from {Geom} (envelope : Geom -> BBox) (start : nat)
  (gs : list Geom) (q : BBox) : list nat :=
  match gs with
  | [] => []
  | g :: rest =>
      scan_from envelope (S start) rest q ++
      (if bbox_intersects (envelope g) q then [start] else [])
  end.

Definition scan_index {Geom} (envelope : Geom -> BBox) (gs : list Geom) (q : BBox)
  : list nat :=
  scan_from envelope 0%nat gs q.

(** Integer-valued floats for the examples. *)
Definition fz (z : Z) : spec_float := f64 z 0.

(** A two-cell table: "A" winters on the box (0,0)-(10,10), "B" breeds on
    the box (10,0)-(20,10). *)
Definition cellA : CellRow BBox :=
  mkCellRow (CellStr "A") (mkBBox (fz 0) (fz 0) (fz 10) (fz 10))
    (fz 5) (fz 5) (fz 5) (fz 0).

Definition cellB : CellRow BBox :=
  mkCellRow (CellStr "B") (mkBBox (fz 10) (fz 0) (fz 20) (fz 10))
    (fz 5) (fz 15) (fz 0) (fz 3).

Definition demo_cells : list (CellRow BBox) := [cellA; cellB].

(** A cell that both winters and breeds, with the integer id 0. *)
Definition cellZero : CellRow BBox :=
  mkCellRow (CellInt 0) (mkBBox (fz 20) (fz 0) (fz 30) (fz 10))
    (fz 5) (fz 25) (fz 2) (fz 4).

Definition demo_path : Path := [(fz 40, fz (-85)); (fz 41, fz (-86))].

Definition routeAB : RouteRecord :=
  mkRouteRecord (CellStr "A") (CellStr "B") demo_path [].

Definition routeAB' : RouteRecord :=
  mkRouteRecord (CellStr "A") (CellStr "B") [] [("distance", fz 7)].

Definition routeZeroB : RouteRecord :=
  mkRouteRecord (CellInt 0) (CellStr "B") demo_path [].

Definition routeBA : RouteRecord :=
  mkRouteRecord (CellStr "B") (CellStr "A") [] [("distance", fz 9)].

(** [trySelect] on a sequence of hit cells, one click after the other. *)
Definition select_all (departure destination : gset CellId) (cs : list CellId)
  (st : SessionState) : SessionState :=
  foldl (fun s c => (trySelect departure destination c s).2) st cs.

(** ** Barriers *)

(** [swap_coords(coords)]: [[(lon, lat) for lat, lon in coords]]. *)
Definition swap_coords {A B : Type} (coords : list (A * B)) : list (B * A) :=
  map (fun c => let '(lat, lon) := c in (lon, lat)) coords.

(** The barrier outlines as the script lists them, [(lat, lon)] pairs. *)
Definition boundaries : list (list (Z * Z)) :=
  [ [(40, -81); (43, -85); (40, -80); (39, -80); (39, -90); (40, -90)];
    [(41, -87); (43, -89); (43, -90)] ].

(** The rings handed to [Polygon], one per barrier. *)
Definition barrier_rings : list (list (Z * Z)) := map swap_coords boundaries.

(** ** The session dictionary *)

(** [if key not in st.session_state: st.session_state[key] = None] *)
Definition init_slot (key : string) (ss : gmap string (option CellId))
  : gmap string (option CellId) :=
  match ss !! key with
  | Some _ => ss
  | None => <[key := None]> ss
  end.

(** The start of every run: the two slots are created if they are missing. *)
Definition init_session_state (ss : gmap string (option CellId))
  : gmap string (option CellId) :=
  init_slot "target" (init_slot "origin" ss).

(** The two slots as the rest of the run reads them; [None] when one of the
    keys is missing. *)
Definition session_slots (ss : gmap string (option CellId)) : option SessionState :=
  o ← ss !! "origin"; t ← ss !! "target"; Some (mkSession o t).

(** ** Sequences of interactions *)

(** The outcomes of [trySelect] on a sequence of hit cells, click by click. *)
Fixpoint select_trace (departure destination : gset CellId) (cs : list CellId)
  (st : SessionState) : list Outcome :=
  match cs with
  | [] => []
  | c :: rest =>
      (trySelect departure destination c st).1 ::
      select_trace departure destination rest (trySelect departure destination c st).2
  end.

Definition is_rerun (o : Outcome) : bool :=
  match o with
  | Rerun => true
  | _ => false
  end.

(** How many of the two slots hold [None]. *)
Definition unset_slots (st : SessionState) : nat :=
  ((match origin st with Some _ => 0 | None => 1 end) +
   (match target st with Some _ => 0 | None => 1 end))%nat.

Section Runs.

Context {Geom : Type}.
Variable contains : Geom -> Point -> bool.
Variable sindex_intersection : list Geom -> BBox -> list nat.

(** What one run of the script can do to the two slots.  Once the
    initialisation has created them, the script assigns them in the Reset
    branch and in the click handler only, and an assignment is followed at
    once by the rerun that ends the run; a run that takes neither branch, or
    that raises anywhere, leaves the slots as they were. *)
Inductive slots_step (df : list (CellRow Geom))
  : SessionState -> SessionState -> Prop :=
| slots_unchanged (st : SessionState) :
    slots_step df st st
| slots_reset (st : SessionState) :
    slots_step df st (reset st)
| slots_click (st : SessionState) (last_clicked : option (spec_float * spec_float))
    (out : Outcome) (st' : SessionState) :
    handle_click contains sindex_intersection df last_clicked st = Ok (out, st') ->
    slots_step df st st'.

End Runs.

(** What the selection logic maintains: a chosen origin is a departure cell,
    a chosen target is a destination cell, and a target is chosen only
    together with an origin. *)
Definition selection_valid (departure destination : gset CellId)
  (st : SessionState) : Prop :=
  (forall o, origin st = Some o -> o ∈ departure) /\
  (forall t, target st = Some t -> t ∈ destination /\ is_Some (origin st)).

(** ** More of the reference geometry *)

(** The scan of the envelopes in row order. *)
Definition scan_index_fwd {Geom} (envelope : Geom -> BBox) (gs : list Geom)
  (q : BBox) : list nat :=
  rev (scan_index envelope gs q).

(** A cell whose box (5,0)-(15,10) overlaps those of "A" and "B". *)
Definition cellC : CellRow BBox :=
  mkCellRow (CellStr "C") (mkBBox (fz 5) (fz 0) (fz 15) (fz 10))
    (fz 5) (fz 10) (fz 1) (fz 1).

(** A second row for "A", with another box and no wintering value. *)
Definition cellA2 : CellRow BBox :=
  mkCellRow (CellStr "A") (mkBBox (fz 30) (fz 0) (fz 40) (fz 10))
    (fz 5) (fz 35) (fz 0) (fz 0).

(** * Properties *)

(** Membership of a listed element in a literal list. *)
Ltac in_list := apply list_elem_of_In; simpl; tauto.

(** ** Role sets *)

Lemma elem_of_role_set {Geom} (f : CellRow Geom -> bool)
    (df : list (CellRow Geom)) (c : CellId) :
  c ∈ (list_to_set (map cell (List.filter f df)) : gset CellId) <->
  exists r, r ∈ df /\ cell r = c /\ f r = true.
Proof.
  rewrite elem_of_list_to_set, list_elem_of_In, in_map_iff.
  split.
  - intros (r & Hc & Hr). apply filter_In in Hr as [Hin Hf].
    exists r. by rewrite list_elem_of_In.
  - intros (r & Hin & Hc & Hf). exists r. split; [done |].
    apply filter_In. by rewrite <- list_elem_of_In.
Qed.

Lemma elem_of_departure_cells {Geom} (df : list (CellRow Geom)) c :
  c ∈ departure_cells df <->
  exists r, r ∈ df /\ cell r = c /\ gt_zero (value_wintering r) = true.
Proof. apply (elem_of_role_set (fun r => gt_zero (value_wintering r))). Qed.

Lemma elem_of_destination_cells {Geom} (df : list (CellRow Geom)) c :
  c ∈ destination_cells df <->
  exists r, r ∈ df /\ cell r = c /\ gt_zero (value_breeding r) = true.
Proof. apply (elem_of_role_set (fun r => gt_zero (value_breeding r))). Qed.

(** [gt_zero] is the strict order of the floats: it holds of the positive
    finite values and of plus infinity, and of nothing else. *)
Lemma gt_zero_spec v :
  gt_zero v = true <->
  (exists m e, v = S754_finite false m e) \/ v = S754_infinity false.
Proof.
  unfold gt_zero, SFltb.
  destruct v as [s | [] | | [] m e]; simpl; split;
    first [ discriminate
          | reflexivity
          | intros [(m' & e' & Heq) | Heq]; discriminate Heq
          | intros _; by right
          | intros _; left; by exists m, e ].
Qed.

(** C2. A cell id is in the departure set exactly when some row with that id
    has a wintering value above zero, and in the destination set exactly
    when some row with that id has a breeding value above zero.  When the
    id names a single row of the table, membership is decided by that row's
    own values; a row with both values above zero puts its id in both
    sets. *)
Theorem classify_by_strict_positivity {Geom} (df : list (CellRow Geom)) :
  (forall c, c ∈ (classify df).1 <->
     exists r, r ∈ df /\ cell r = c /\ gt_zero (value_wintering r) = true) /\
  (forall c, c ∈ (classify df).2 <->
     exists r, r ∈ df /\ cell r = c /\ gt_zero (value_breeding r) = true) /\
  (forall r, r ∈ df ->
     (forall r', r' ∈ df -> cell r' = cell r -> r' = r) ->
     (cell r ∈ (classify df).1 <-> gt_zero (value_wintering r) = true) /\
     (cell r ∈ (classify df).2 <-> gt_zero (value_breeding r) = true)) /\
  (forall r, r ∈ df ->
     gt_zero (value_wintering r) = true -> gt_zero (value_breeding r) = true ->
     cell r ∈ (classify df).1 /\ cell r ∈ (classify df).2).
Proof.
  unfold classify; simpl.
  split; [intros c; apply elem_of_departure_cells |].
  split; [intros c; apply elem_of_destination_cells |].
  split.
  - intros r Hin Huniq.
    rewrite elem_of_departure_cells, elem_of_destination_cells.
    split; (split; [intros (r' & Hin' & Hc & Hv); by rewrite <- (Huniq r' Hin' Hc) | intros Hv; by exists r]).
  - intros r Hin Hw Hb.
    rewrite elem_of_departure_cells, elem_of_destination_cells.
    split; by exists r.
Qed.

(** The demo table: "A" is a departure cell only, "B" a destination cell
    only, and a table holding the cell 0 has it in both sets. *)
Lemma classify_by_strict_positivity_witness :
  ((CellStr "A" ∈ (classify demo_cells).1) /\ (CellStr "A" ∉ (classify demo_cells).2)) /\
  ((CellStr "B" ∉ (classify demo_cells).1) /\ (CellStr "B" ∈ (classify demo_cells).2)) /\
  ((CellInt 0 ∈ (classify [cellA; cellZero]).1) /\
   (CellInt 0 ∈ (classify [cellA; cellZero]).2)).
Proof.
  pose proof (classify_by_strict_positivity demo_cells) as (_ & _ & Hrow & _).
  pose proof (classify_by_strict_positivity [cellA; cellZero]) as (_ & _ & _ & Hboth).
  assert (Huniq : forall r, r ∈ demo_cells ->
            forall r', r' ∈ demo_cells -> cell r' = cell r -> r' = r).
  { intros r Hr r' Hr'. unfold demo_cells in *.
    repeat (apply elem_of_cons in Hr as [-> | Hr]);
      repeat (apply elem_of_cons in Hr' as [-> | Hr']);
      try (by apply elem_of_nil in Hr); try (by apply elem_of_nil in Hr');
      simpl; congruence. }
  assert (HA : cellA ∈ demo_cells) by in_list.
  assert (HB : cellB ∈ demo_cells) by in_list.
  destruct (Hrow cellA HA (Huniq cellA HA)) as [HAw HAb].
  destruct (Hrow cellB HB (Huniq cellB HB)) as [HBw HBb].
  split; [| split].
  - split; [by apply HAw | intros H%HAb; discriminate H].
  - split; [intros H%HBw; discriminate H | by apply HBb].
  - apply (Hboth cellZero); [in_list | reflexivity | reflexivity].
Defined.

(** ** Selection *)

Section Selection.

Variables departure destination : gset CellId.

Lemma trySelect_origin_unset c st :
  origin st = None ->
  trySelect departure destination c st =
    if bool_decide (c ∈ departure) then (Rerun, set_origin (Some c) st)
    else (Warning "Not a valid departure cell", st).
Proof. intros Ho. unfold trySelect. by rewrite Ho. Qed.

Lemma trySelect_target_unset c o st :
  origin st = Some o -> target st = None ->
  trySelect departure destination c st =
    if bool_decide (c ∈ destination) then (Rerun, set_target (Some c) st)
    else (Warning "Not a valid destination cell", st).
Proof. intros Ho Ht. unfold trySelect. by rewrite Ho, Ht. Qed.

Lemma trySelect_both_set c o t st :
  origin st = Some o -> target st = Some t ->
  trySelect departure destination c st = (Continue, st).
Proof. intros Ho Ht. unfold trySelect. by rewrite Ho, Ht. Qed.

(** The origin slot survives a click once it is set. *)
Lemma trySelect_keeps_origin c o st :
  origin st = Some o -> origin (trySelect departure destination c st).2 = Some o.
Proof.
  intros Ho. destruct (target st) as [t |] eqn:Ht.
  - by rewrite (trySelect_both_set c o t st Ho Ht).
  - rewrite (trySelect_target_unset c o st Ho Ht). by case_bool_decide.
Qed.

Lemma select_all_keeps_origin cs o st :
  origin st = Some o -> origin (select_all departure destination cs st) = Some o.
Proof.
  revert st. induction cs as [| c cs IH]; intros st Ho; simpl; [done |].
  apply IH. by apply trySelect_keeps_origin.
Qed.

(** The target slot changes only under a set origin. *)
Lemma trySelect_target_changes c st :
  target (trySelect departure destination c st).2 <> target st ->
  is_Some (origin st) /\ target st = None /\
  target (trySelect departure destination c st).2 = Some c /\
  c ∈ destination.
Proof.
  unfold trySelect. destruct (origin st) as [o |] eqn:Ho.
  - destruct (target st) as [t |] eqn:Ht; simpl; [congruence |].
    case_bool_decide; simpl; [eauto | congruence].
  - case_bool_decide; simpl; congruence.
Qed.

End Selection.

(** C3. With the origin unset, a click on a cell outside the departure set
    ends in the warning "Not a valid departure cell" and leaves both slots
    as they were; with the origin set and the target unset, a click on a
    cell outside the destination set ends in the warning "Not a valid
    destination cell" and leaves both slots as they were. *)
Theorem trySelect_rejects_wrong_role (departure destination : gset CellId)
    (c : CellId) (st : SessionState) :
  (origin st = None -> c ∉ departure ->
     trySelect departure destination c st =
       (Warning "Not a valid departure cell", st)) /\
  (is_Some (origin st) -> target st = None -> c ∉ destination ->
     trySelect departure destination c st =
       (Warning "Not a valid destination cell", st)).
Proof.
  split.
  - intros Ho Hc. rewrite trySelect_origin_unset by done.
    by rewrite bool_decide_eq_false_2.
  - intros [o Ho] Ht Hc. rewrite (trySelect_target_unset _ _ c o) by done.
    by rewrite bool_decide_eq_false_2.
Qed.

(** On the demo table: "B" is refused as an origin, and "A" is refused as a
    target once "A" is the origin. *)
Lemma trySelect_rejects_wrong_role_witness :
  trySelect (departure_cells demo_cells) (destination_cells demo_cells)
    (CellStr "B") EmptyState = (Warning "Not a valid departure cell", EmptyState) /\
  trySelect (departure_cells demo_cells) (destination_cells demo_cells)
    (CellStr "A") (mkSession (Some (CellStr "A")) None) =
    (Warning "Not a valid destination cell", mkSession (Some (CellStr "A")) None).
Proof.
  split.
  - apply (trySelect_rejects_wrong_role _ _ (CellStr "B") EmptyState);
      [reflexivity | by vm_compute].
  - apply (trySelect_rejects_wrong_role _ _ (CellStr "A")
             (mkSession (Some (CellStr "A")) None));
      [by eexists | reflexivity | by vm_compute].
Defined.

(** C4. With both slots set, a click changes neither slot, whatever the
    cell, and so does any number of clicks on it. *)
Theorem trySelect_complete_is_noop (departure destination : gset CellId)
    (x : CellId) (n : nat) (st : SessionState) :
  is_Some (origin st) -> is_Some (target st) ->
  trySelect departure destination x st = (Continue, st) /\
  select_repeatedly departure destination x n st = st.
Proof.
  intros [o Ho] [t Ht].
  pose proof (trySelect_both_set departure destination x o t st Ho Ht) as Hstep.
  split; [done |].
  induction n as [| n IH]; simpl; [done |].
  by rewrite Hstep.
Qed.

(** With A as origin and B as target, three further clicks on A change
    nothing. *)
Lemma trySelect_complete_is_noop_witness :
  let st := mkSession (Some (CellStr "A")) (Some (CellStr "B")) in
  trySelect (departure_cells demo_cells) (destination_cells demo_cells)
    (CellStr "A") st = (Continue, st) /\
  select_repeatedly (departure_cells demo_cells) (destination_cells demo_cells)
    (CellStr "A") 3 st = st.
Proof.
  apply (trySelect_complete_is_noop _ _ (CellStr "A") 3
           (mkSession (Some (CellStr "A")) (Some (CellStr "B"))));
    by eexists.
Defined.

(** C8. A click never replaces a set origin, also over any sequence of
    clicks, and it assigns the target only when the origin is already set
    (and then leaves the origin alone). *)
Theorem selection_invariant (departure destination : gset CellId)
    (c : CellId) (st : SessionState) :
  (forall o, origin st = Some o ->
     origin (trySelect departure destination c st).2 = Some o) /\
  (forall o cs, origin st = Some o ->
     origin (select_all departure destination cs st) = Some o) /\
  (target (trySelect departure destination c st).2 <> target st ->
     is_Some (origin st) /\
     origin (trySelect departure destination c st).2 = origin st).
Proof.
  split; [intros o; apply trySelect_keeps_origin |].
  split; [intros o cs; apply select_all_keeps_origin |].
  intros Hchg.
  destruct (trySelect_target_changes _ _ c st Hchg) as ([o Ho] & _).
  split; [by exists o |].
  rewrite Ho. by apply trySelect_keeps_origin.
Qed.

(** On the demo table: with A as origin, clicks on B, A and B keep A as
    origin, and the click on B that sets the target happens under that
    origin. *)
Lemma selection_invariant_witness :
  let dep := departure_cells demo_cells in
  let dst := destination_cells demo_cells in
  let st := mkSession (Some (CellStr "A")) None in
  origin (select_all dep dst [CellStr "B"; CellStr "A"; CellStr "B"] st)
    = Some (CellStr "A") /\
  origin (trySelect dep dst (CellStr "B") st).2 = origin st.
Proof.
  intros dep dst st.
  destruct (selection_invariant dep dst (CellStr "B") st) as (_ & Hall & Htgt).
  split.
  - by apply Hall.
  - apply Htgt. by vm_compute.
Defined.

(** C10. With the origin set to a cell and the target unset, a click on that
    same cell makes it the target too, provided a row of the table gives it
    a breeding value above zero. *)
Theorem self_route_is_permitted {Geom} (df : list (CellRow Geom))
    (r : CellRow Geom) (st : SessionState) :
  r ∈ df -> gt_zero (value_breeding r) = true ->
  origin st = Some (cell r) -> target st = None ->
  trySelect (departure_cells df) (destination_cells df) (cell r) st =
    (Rerun, mkSession (Some (cell r)) (Some (cell r))).
Proof.
  intros Hin Hb Ho Ht.
  rewrite (trySelect_target_unset _ _ _ (cell r)) by done.
  rewrite bool_decide_eq_true_2.
  - unfold set_target. by rewrite Ho.
  - apply elem_of_destination_cells. by exists r.
Qed.

(** The cell 0 winters and breeds: chosen as origin, it is accepted as
    target as well. *)
Lemma self_route_is_permitted_witness :
  trySelect (departure_cells [cellA; cellZero]) (destination_cells [cellA; cellZero])
    (CellInt 0) (mkSession (Some (CellInt 0)) None) =
    (Rerun, mkSession (Some (CellInt 0)) (Some (CellInt 0))).
Proof.
  apply (self_route_is_permitted [cellA; cellZero] cellZero
           (mkSession (Some (CellInt 0)) None));
    [in_list | reflexivity | reflexivity | reflexivity].
Defined.

(** ** Route lookup *)

Lemma load_routes_keys (R : list RouteRecord) :
  (load_routes R).*1 = map route_key R.
Proof.
  unfold load_routes, set_index. induction R as [| r R IH]; simpl; [done |].
  by rewrite <- IH.
Qed.

Lemma rows_at_load_routes (R : list RouteRecord) (key : RouteKey) :
  rows_at (load_routes R) key =
  map route_data (List.filter (fun r => bool_decide (route_key r = key)) R).
Proof.
  unfold rows_at, load_routes, set_index.
  induction R as [| r R IH]; [done |].
  cbn [map List.filter fst].
  destruct (bool_decide (route_key r = key)); cbn [map fmap list_fmap snd];
    by rewrite <- IH.
Qed.

Lemma index_contains_load_routes (R : list RouteRecord) (key : RouteKey) :
  index_contains (load_routes R) key = bool_decide (key ∈ map route_key R).
Proof. unfold index_contains. by rewrite load_routes_keys. Qed.

(** A key of the table selects at least one row. *)
Lemma filter_key_nonempty (R : list RouteRecord) (key : RouteKey) :
  key ∈ map route_key R ->
  List.filter (fun r => bool_decide (route_key r = key)) R <> [].
Proof.
  intros Hin Hnil.
  apply list_elem_of_In, in_map_iff in Hin as (r & Hk & Hr).
  assert (In r (List.filter (fun r => bool_decide (route_key r = key)) R)) as Hf.
  { apply filter_In. split; [done |]. by apply bool_decide_eq_true_2. }
  rewrite Hnil in Hf. destruct Hf.
Qed.

(** When the keys are pairwise distinct, a key selects one row only. *)
Lemma filter_key_unique (R : list RouteRecord) (r : RouteRecord) :
  NoDup (map route_key R) -> r ∈ R ->
  List.filter (fun r' => bool_decide (route_key r' = route_key r)) R = [r].
Proof.
  induction R as [| r0 R IH]; intros Hnd Hin; [by apply elem_of_nil in Hin |].
  simpl in Hnd. apply NoDup_cons in Hnd as [Hfresh Hnd]. simpl.
  apply elem_of_cons in Hin as [-> | Hin].
  - rewrite bool_decide_eq_true_2 by done. f_equal.
    destruct (List.filter _ R) as [| r1 l] eqn:Hf; [done |].
    exfalso. assert (In r1 (List.filter
      (fun r' => bool_decide (route_key r' = route_key r0)) R)) as H1
      by (rewrite Hf; by left).
    apply filter_In in H1 as [H1 Hk]. apply bool_decide_eq_true_1 in Hk.
    apply Hfresh. rewrite <- Hk. apply list_elem_of_In, in_map. done.
  - rewrite bool_decide_eq_false_2; [by apply IH |].
    intros Hk. apply Hfresh. rewrite Hk.
    apply list_elem_of_In, in_map. by apply list_elem_of_In.
Qed.

Lemma loc_rows_loc (policy : SingleRow) (idx : RoutesIdx) (r : RouteData)
    (rest : list RouteData) :
  loc_rows (loc policy idx r rest) = r :: rest.
Proof.
  unfold loc. destruct rest as [| r' rest]; [| done].
  destruct (index_is_unique idx); [done |]. by destruct policy.
Qed.

(** The membership test guards the lookup: a key that passes it has a
    row. *)
Lemma get_load_routes (policy : SingleRow) (R : list RouteRecord) (o d : CellId) :
  get policy (load_routes R) o d =
  match List.filter (fun r => bool_decide (route_key r = (o, d))) R with
  | [] => Ok None
  | r :: rest =>
      Ok (Some (loc policy (load_routes R) (route_data r) (map route_data rest)))
  end.
Proof.
  unfold get. rewrite index_contains_load_routes, rows_at_load_routes.
  case_bool_decide as Hin.
  - by destruct (List.filter _ R) as [| r rest].
  - destruct (List.filter _ R) as [| r rest] eqn:Hf; [done |].
    exfalso. apply Hin.
    assert (In r (List.filter (fun r => bool_decide (route_key r = (o, d))) R))
      as Hr by (rewrite Hf; by left).
    apply filter_In in Hr as [Hr Hk]. apply bool_decide_eq_true_1 in Hk.
    rewrite <- Hk. apply list_elem_of_In, in_map. done.
Qed.

(** C5. When no record of the input has the ordered key (o, d), the lookup
    of (o, d) returns [None] without raising, and so does the route shown
    for the selection (o, d); a record with the reversed key (d, o) changes
    nothing to that, while the lookup of (d, o) itself does return a
    result. *)
Theorem get_absent_key_is_none (policy : SingleRow) (R : list RouteRecord)
    (o d : CellId) :
  (o, d) ∉ map route_key R ->
  get policy (load_routes R) o d = Ok None /\
  currentRoute policy (load_routes R) (mkSession (Some o) (Some d)) = Ok None /\
  ((d, o) ∈ map route_key R ->
     exists res, get policy (load_routes R) d o = Ok (Some res)).
Proof.
  intros Habs.
  assert (Hget : get policy (load_routes R) o d = Ok None).
  { unfold get. rewrite index_contains_load_routes.
    by rewrite bool_decide_eq_false_2. }
  split; [done |]. split.
  - unfold currentRoute; simpl. by destruct (truthy o && truthy d).
  - intros Hrev. rewrite get_load_routes.
    pose proof (filter_key_nonempty R (d, o) Hrev) as Hne.
    destruct (List.filter _ R) as [| r rest]; [done |]. by eexists.
Qed.

(** The table holds the route A to B only: the lookup of (B, A) is [None],
    that of (A, B) is the record. *)
Lemma get_absent_key_is_none_witness :
  get SingleRowSeries (load_routes [routeAB]) (CellStr "B") (CellStr "A") = Ok None /\
  currentRoute SingleRowSeries (load_routes [routeAB])
    (mkSession (Some (CellStr "B")) (Some (CellStr "A"))) = Ok None /\
  get SingleRowSeries (load_routes [routeAB]) (CellStr "A") (CellStr "B") =
    Ok (Some (LocSeries (route_data routeAB))).
Proof.
  destruct (get_absent_key_is_none SingleRowSeries [routeAB] (CellStr "B") (CellStr "A"))
    as (Hget & Hcur & _).
  - intros Hin. apply list_elem_of_In in Hin. simpl in Hin.
    destruct Hin as [Hin | []]. discriminate Hin.
  - split; [exact Hget |]. split; [exact Hcur |]. reflexivity.
Defined.

(** C6, as the code has it.  For a key (o, d) that occurs in the input, the
    lookup returns, without raising, the data of the records with that key,
    in input order.  A key that occurs once gives the single record with
    that key: as a Series when the keys of the input are pairwise distinct
    and, when they are not, as a Series or as a table of one row, as the
    pandas at hand does.  A key that occurs several times gives the
    sub-table of all the records with that key, not the last one alone. *)
Theorem get_roundtrip (policy : SingleRow) (R : list RouteRecord) (o d : CellId) :
  (o, d) ∈ map route_key R ->
  exists res,
    get policy (load_routes R) o d = Ok (Some res) /\
    loc_rows res =
      map route_data (List.filter (fun r => bool_decide (route_key r = (o, d))) R) /\
    (NoDup (map route_key R) ->
       forall r, r ∈ R -> route_key r = (o, d) -> res = LocSeries (route_data r)) /\
    (forall r,
       List.filter (fun r => bool_decide (route_key r = (o, d))) R = [r] ->
       policy = SingleRowSeries -> res = LocSeries (route_data r)) /\
    (forall r,
       List.filter (fun r => bool_decide (route_key r = (o, d))) R = [r] ->
       policy = SingleRowFrame -> ~ NoDup (map route_key R) ->
       res = LocFrame [route_data r]) /\
    (forall r1 r2 rest,
       List.filter (fun r => bool_decide (route_key r = (o, d))) R = r1 :: r2 :: rest ->
       res = LocFrame (map route_data (r1 :: r2 :: rest))).
Proof.
  intros Hin. rewrite get_load_routes.
  pose proof (filter_key_nonempty R (o, d) Hin) as Hne.
  destruct (List.filter _ R) as [| r0 rest] eqn:Hf; [done |].
  eexists. split; [reflexivity |]. split; [apply loc_rows_loc |].
  unfold loc, index_is_unique. rewrite load_routes_keys.
  split; [| split; [| split]].
  - intros Hnd r Hr Hk.
    assert (Hone : r0 :: rest = [r]).
    { rewrite <- Hf, <- Hk. by apply filter_key_unique. }
    injection Hone as -> ->. simpl. by rewrite bool_decide_eq_true_2.
  - intros r [= -> ->] ->. simpl. by case_bool_decide.
  - intros r [= -> ->] -> Hdup. simpl. by rewrite bool_decide_eq_false_2.
  - intros r1 r2 rest' Heq. injection Heq as -> ->. done.
Qed.

(** With the route A to B alone in the table the lookup is that record.
    With a second record under the key (A, B) and one record under (B, A),
    the lookup of (A, B) is the table of both records, in input order, and
    the lookup of (B, A) is its one record, as a Series or as a table of
    one row. *)
Lemma get_roundtrip_witness :
  get SingleRowSeries (load_routes [routeAB]) (CellStr "A") (CellStr "B") =
    Ok (Some (LocSeries (route_data routeAB))) /\
  get SingleRowSeries (load_routes [routeAB; routeAB'; routeBA])
    (CellStr "A") (CellStr "B") =
    Ok (Some (LocFrame [route_data routeAB; route_data routeAB'])) /\
  get SingleRowSeries (load_routes [routeAB; routeAB'; routeBA])
    (CellStr "B") (CellStr "A") = Ok (Some (LocSeries (route_data routeBA))) /\
  get SingleRowFrame (load_routes [routeAB; routeAB'; routeBA])
    (CellStr "B") (CellStr "A") = Ok (Some (LocFrame [route_data routeBA])).
Proof.
  split; [| split; [| split]].
  - destruct (get_roundtrip SingleRowSeries [routeAB] (CellStr "A") (CellStr "B"))
      as (res & Hget & _ & Huniq & _); [in_list |].
    rewrite Hget. do 2 f_equal.
    apply Huniq; [| in_list | reflexivity].
    simpl. apply NoDup_singleton.
  - destruct (get_roundtrip SingleRowSeries [routeAB; routeAB'; routeBA]
                (CellStr "A") (CellStr "B"))
      as (res & Hget & _ & _ & _ & _ & Hdup); [in_list |].
    rewrite Hget. do 2 f_equal. by apply (Hdup routeAB routeAB' []).
  - destruct (get_roundtrip SingleRowSeries [routeAB; routeAB'; routeBA]
                (CellStr "B") (CellStr "A"))
      as (res & Hget & _ & _ & Hone & _); [in_list |].
    rewrite Hget. do 2 f_equal. by apply Hone.
  - destruct (get_roundtrip SingleRowFrame [routeAB; routeAB'; routeBA]
                (CellStr "B") (CellStr "A"))
      as (res & Hget & _ & _ & _ & Hone & _); [in_list |].
    rewrite Hget. do 2 f_equal. apply Hone; [reflexivity | reflexivity |].
    simpl. intros Hnd. apply NoDup_cons in Hnd as [Hfresh _].
    apply Hfresh. by left.
Defined.

(** C6 as stated fails when a key is duplicated: the lookup is the
    two-row sub-table, not the last record alone, whichever pandas is at
    hand. *)
Lemma get_duplicate_key_not_last :
  (get SingleRowSeries (load_routes [routeAB; routeAB']) (CellStr "A") (CellStr "B") =
     Ok (Some (LocFrame [route_data routeAB; route_data routeAB'])) /\
   get SingleRowFrame (load_routes [routeAB; routeAB']) (CellStr "A") (CellStr "B") =
     Ok (Some (LocFrame [route_data routeAB; route_data routeAB']))) /\
  (get SingleRowSeries (load_routes [routeAB; routeAB']) (CellStr "A") (CellStr "B") <>
     Ok (Some (LocSeries (route_data routeAB'))) /\
   get SingleRowFrame (load_routes [routeAB; routeAB']) (CellStr "A") (CellStr "B") <>
     Ok (Some (LocSeries (route_data routeAB')))) /\
  last (List.filter (fun r => bool_decide (route_key r = (CellStr "A", CellStr "B")))
          [routeAB; routeAB']) = Some routeAB'.
Proof.
  split; [split; reflexivity |]. split; [split; discriminate | reflexivity].
Qed.

(** ** Reset and the displayed route *)

(** C7. Whatever the two slots hold, the Reset button leaves both of them
    [None], which is the state the session starts in, and the route computed
    on the rerun that follows is [None]. *)
Theorem reset_clears_selection (policy : SingleRow) (idx : RoutesIdx)
    (st : SessionState) :
  reset st = EmptyState /\
  origin (reset st) = None /\ target (reset st) = None /\
  currentRoute policy idx (reset st) = Ok None.
Proof. by destruct st. Qed.

(** The cell ids that Python takes for false. *)
Lemma truthy_false_iff (c : CellId) :
  truthy c = false <-> c = CellInt 0 \/ c = CellStr "".
Proof.
  destruct c as [z | s]; simpl.
  - rewrite negb_false_iff, Z.eqb_eq. split; [intros ->; by left |].
    intros [H | H]; congruence.
  - rewrite negb_false_iff, String.eqb_eq. split; [intros ->; by right |].
    intros [H | H]; congruence.
Qed.

(** The route is looked up only if both slots are truthy. *)
Lemma currentRoute_falsy_slot (policy : SingleRow) (idx : RoutesIdx)
    (st : SessionState) :
  truthy_slot (origin st) = false \/ truthy_slot (target st) = false ->
  currentRoute policy idx st = Ok None.
Proof.
  intros [H | H]; unfold currentRoute; rewrite H; [done |].
  by rewrite andb_false_r.
Qed.

(** When both slots are truthy the route is the guarded lookup. *)
Lemma currentRoute_truthy (policy : SingleRow) (idx : RoutesIdx) (o t : CellId) :
  truthy o = true -> truthy t = true ->
  currentRoute policy idx (mkSession (Some o) (Some t)) = get policy idx o t.
Proof. intros Ho Ht. unfold currentRoute; simpl. by rewrite Ho, Ht. Qed.

(** C9. With both slots set and one of the two cell ids false for Python
    (the integer 0 or the empty string), no route is looked up: the route
    of the run is [None] whatever the route table holds; the slot with the
    false id gets no highlight; and yet the selection logic takes both slots
    as chosen and ignores further clicks. *)
Theorem falsy_cell_id_hides_route {Geom} (df : list (CellRow Geom))
    (policy : SingleRow) (idx : RoutesIdx) (departure destination : gset CellId)
    (o t : CellId) :
  truthy o = false \/ truthy t = false ->
  currentRoute policy idx (mkSession (Some o) (Some t)) = Ok None /\
  (truthy o = false ->
     draw_slot df (origin (mkSession (Some o) (Some t))) "green" = []) /\
  (truthy t = false ->
     draw_slot df (target (mkSession (Some o) (Some t))) "red" = []) /\
  (forall c, trySelect departure destination c (mkSession (Some o) (Some t)) =
     (Continue, mkSession (Some o) (Some t))).
Proof.
  intros Hfalsy. split; [by apply currentRoute_falsy_slot |].
  split; [| split].
  - intros Ho. unfold draw_slot; simpl. by rewrite Ho.
  - intros Ht. unfold draw_slot; simpl. by rewrite Ht.
  - intros c. by apply (trySelect_both_set _ _ c o t).
Qed.

(** The cell 0 is reached as origin by a click, B as target by another; the
    table holds the route from 0 to B and the cell table a row for 0, yet no
    route is shown and the origin is not highlighted. *)
Lemma falsy_cell_id_hides_route_witness :
  let df := [cellZero; cellB] in
  let idx := load_routes [routeZeroB] in
  let dep := departure_cells df in
  let dst := destination_cells df in
  select_all dep dst [CellInt 0; CellStr "B"] EmptyState =
    mkSession (Some (CellInt 0)) (Some (CellStr "B")) /\
  get SingleRowSeries idx (CellInt 0) (CellStr "B") =
    Ok (Some (LocSeries (route_data routeZeroB))) /\
  draw_h3 df (CellInt 0) "green" = [GeoJson (geometry cellZero) "green"] /\
  currentRoute SingleRowSeries idx
    (mkSession (Some (CellInt 0)) (Some (CellStr "B"))) = Ok None /\
  draw_selected df (mkSession (Some (CellInt 0)) (Some (CellStr "B"))) =
    [GeoJson (geometry cellB) "red"].
Proof.
  intros df idx dep dst.
  destruct (falsy_cell_id_hides_route df SingleRowSeries idx dep dst
              (CellInt 0) (CellStr "B"))
    as (Hroute & Horigin & _ & _); [left; reflexivity |].
  split; [by vm_compute |]. split; [reflexivity |]. split; [reflexivity |].
  split; [exact Hroute |].
  unfold draw_selected. rewrite Horigin by reflexivity. reflexivity.
Defined.

(** ** Resolving a click to a cell *)

Section Resolve.

Context {Geom : Type}.
Variable contains : Geom -> Point -> bool.
Variable envelope : Geom -> BBox.
Variable sindex_intersection : list Geom -> BBox -> list nat.

(** The index returns the positions of the geometries whose envelope meets
    the query box, in an order of its own. *)
Hypothesis sindex_spec : forall (gs : list Geom) (q : BBox) (i : nat),
  i ∈ sindex_intersection gs q <->
  exists g, gs !! i = Some g /\ bbox_intersects (envelope g) q = true.

(** A geometry that contains a point has an envelope that meets the point's
    bounds. *)
Hypothesis contains_envelope : forall (g : Geom) (p : Point),
  contains g p = true -> bbox_intersects (envelope g) (point_bounds p) = true.

Implicit Types (df : list (CellRow Geom)) (idx : list nat).

Lemma iloc_in_range df idx :
  (forall i, i ∈ idx -> is_Some (df !! i)) ->
  iloc df idx = Ok (omap (fun i => df !! i) idx).
Proof.
  induction idx as [| i idx IH]; intros Hrange; simpl; [done |].
  destruct (Hrange i) as [r Hr]; [by left |].
  rewrite Hr, IH; [done |].
  intros j Hj. apply Hrange. by right.
Qed.

Lemma candidates_in_range df q i :
  i ∈ sindex_intersection (map geometry df) q -> is_Some (df !! i).
Proof.
  intros (g & Hg & _)%sindex_spec.
  change (map geometry df) with (geometry <$> df) in Hg.
  rewrite list_lookup_fmap in Hg.
  destruct (df !! i) as [r |]; [by eexists | discriminate Hg].
Qed.

(** The handler never raises, and its answer is the cell of the first
    candidate, in index order, that contains the point. *)
Lemma resolvePoint_first_hit df lon lat :
  resolvePoint contains sindex_intersection df lon lat =
  Ok (cell <$> head (hits contains
        (omap (fun i => df !! i)
           (sindex_intersection (map geometry df) (point_bounds (mkPoint lon lat))))
        (mkPoint lon lat))).
Proof.
  unfold resolvePoint. rewrite iloc_in_range.
  - simpl. by destruct (hits _ _ _).
  - intros i. apply candidates_in_range.
Qed.

(** A hit is a row of the table, at a candidate position, that contains the
    point. *)
Lemma elem_of_hits df q p r :
  r ∈ hits contains (omap (fun i => df !! i) (sindex_intersection (map geometry df) q)) p ->
  exists i, df !! i = Some r /\ contains (geometry r) p = true.
Proof.
  unfold hits. intros Hr. apply list_elem_of_In, filter_In in Hr as [Hr Hc].
  apply list_elem_of_In, list_elem_of_omap in Hr as (i & _ & Hi).
  by exists i.
Qed.

(** Every row that contains the point is among the hits. *)
Lemma hits_complete df p i r :
  df !! i = Some r -> contains (geometry r) p = true ->
  r ∈ hits contains
        (omap (fun i => df !! i) (sindex_intersection (map geometry df) (point_bounds p))) p.
Proof.
  intros Hi Hc. unfold hits. apply list_elem_of_In, filter_In. split; [| done].
  apply list_elem_of_In, list_elem_of_omap. exists i. split; [| done].
  apply sindex_spec. exists (geometry r). split; [| by apply contains_envelope].
  change (map geometry df) with (geometry <$> df).
  by rewrite list_lookup_fmap, Hi.
Qed.

(** C1. If exactly one row of the table has a polygon that contains the
    clicked point, the handler resolves the click to the cell of that row;
    if no row has one, it resolves the click to [None].  In both cases it
    returns without raising. *)
Theorem resolvePoint_containment df (lon lat : spec_float) :
  (forall i r,
     df !! i = Some r -> contains (geometry r) (mkPoint lon lat) = true ->
     (forall j r', df !! j = Some r' ->
        contains (geometry r') (mkPoint lon lat) = true -> j = i) ->
     resolvePoint contains sindex_intersection df lon lat = Ok (Some (cell r))) /\
  ((forall r, r ∈ df -> contains (geometry r) (mkPoint lon lat) = false) ->
     resolvePoint contains sindex_intersection df lon lat = Ok None).
Proof.
  split.
  - intros i r Hi Hc Huniq. rewrite resolvePoint_first_hit.
    pose proof (hits_complete df _ i r Hi Hc) as Hin.
    destruct (hits _ _ _) as [| r1 rest] eqn:Hh; [by apply elem_of_nil in Hin |].
    simpl. do 2 f_equal.
    destruct (elem_of_hits df (point_bounds (mkPoint lon lat)) (mkPoint lon lat) r1)
      as (j & Hj & Hcj); [rewrite Hh; by left |].
    rewrite (Huniq j r1 Hj Hcj) in Hj. congruence.
  - intros Hout. rewrite resolvePoint_first_hit.
    destruct (hits _ _ _) as [| r1 rest] eqn:Hh; [done |].
    destruct (elem_of_hits df (point_bounds (mkPoint lon lat)) (mkPoint lon lat) r1)
      as (j & Hj & Hcj); [rewrite Hh; by left |].
    rewrite Hout in Hcj; [discriminate Hcj |].
    apply list_elem_of_lookup. by exists j.
Qed.

End Resolve.

(** ** The reference geometry meets the contract *)

Lemma SFltb_SFleb (x y : spec_float) : SFltb x y = true -> SFleb x y = true.
Proof. unfold SFltb, SFleb. by destruct (SFcompare x y) as [[] |]. Qed.

Lemma box_contains_envelope (b : BBox) (p : Point) :
  box_contains b p = true -> bbox_intersects (id b) (point_bounds p) = true.
Proof.
  unfold box_contains, bbox_intersects; simpl.
  rewrite !andb_true_iff. intros [[[H1 H2] H3] H4].
  repeat split; by apply SFltb_SFleb.
Qed.

Lemma elem_of_scan_from {Geom} (envelope : Geom -> BBox) (gs : list Geom)
    (q : BBox) (start i : nat) :
  i ∈ scan_from envelope start gs q <->
  exists g, (start <= i)%nat /\ gs !! (i - start)%nat = Some g /\
            bbox_intersects (envelope g) q = true.
Proof.
  revert start. induction gs as [| g0 gs IH]; intros start; simpl.
  - split; [by intros ?%elem_of_nil | by intros (g & _ & ? & _)].
  - rewrite elem_of_app, IH. split.
    + intros [(g & Hle & Hg & Hq) | Hhd].
      * exists g. split; [lia |]. split; [| done].
        replace (i - start)%nat with (S (i - S start)) by lia. done.
      * destruct (bbox_intersects (envelope g0) q) eqn:Hq0;
          [| by apply elem_of_nil in Hhd].
        apply list_elem_of_singleton in Hhd as ->. exists g0.
        split; [lia |]. by rewrite Nat.sub_diag.
    + intros (g & Hle & Hg & Hq).
      destruct (decide (i = start)) as [-> | Hne].
      * right. rewrite Nat.sub_diag in Hg. injection Hg as ->.
        rewrite Hq. by left.
      * left. exists g. split; [lia |]. split; [| done].
        replace (i - start)%nat with (S (i - S start)) in Hg by lia. done.
Qed.

Lemma scan_index_spec {Geom} (envelope : Geom -> BBox) (gs : list Geom)
    (q : BBox) (i : nat) :
  i ∈ scan_index envelope gs q <->
  exists g, gs !! i = Some g /\ bbox_intersects (envelope g) q = true.
Proof.
  unfold scan_index. rewrite elem_of_scan_from, Nat.sub_0_r.
  split; [intros (g & _ & ? & ?) | intros (g & ? & ?)]; exists g;
    repeat split; try done; lia.
Qed.

(** On the demo table, a click at (5, 5) resolves to "A" and a click at
    (25, 5), off both boxes, to [None]. *)
Lemma resolvePoint_containment_witness :
  resolvePoint box_contains (scan_index id) demo_cells (fz 5) (fz 5) =
    Ok (Some (CellStr "A")) /\
  resolvePoint box_contains (scan_index id) demo_cells (fz 25) (fz 5) = Ok None.
Proof.
  split.
  - destruct (resolvePoint_containment box_contains id (scan_index id)
                (scan_index_spec id) box_contains_envelope
                demo_cells (fz 5) (fz 5)) as [Hin _].
    apply (Hin 0%nat cellA); [reflexivity | reflexivity |].
    intros [| [| j]] r' Hj Hc; [reflexivity | | discriminate Hj].
    injection Hj as <-. discriminate Hc.
  - destruct (resolvePoint_containment box_contains id (scan_index id)
                (scan_index_spec id) box_contains_envelope
                demo_cells (fz 25) (fz 5)) as [_ Hout].
    apply Hout. intros r Hr. unfold demo_cells in Hr.
    repeat (apply elem_of_cons in Hr as [-> | Hr]); [reflexivity | reflexivity |].
    by apply elem_of_nil in Hr.
Defined.

(** ** A session on the demo table *)

(** A click in A sets the origin, a click in B the target, and the route
    from A to B is then the one shown; a further click in A is ignored, and
    so is a click on the border that A and B share. *)
Example demo_session :
  let click := handle_click box_contains (scan_index id) demo_cells in
  let idx := load_routes [routeAB] in
  let stA := mkSession (Some (CellStr "A")) None in
  let stAB := mkSession (Some (CellStr "A")) (Some (CellStr "B")) in
  click (Some (fz 5, fz 5)) EmptyState = Ok (Rerun, stA) /\
  click (Some (fz 5, fz 15)) stA = Ok (Rerun, stAB) /\
  currentRoute SingleRowSeries idx stAB =
    Ok (Some (LocSeries (mkRouteData demo_path []))) /\
  click (Some (fz 5, fz 5)) stAB = Ok (Continue, stAB) /\
  click (Some (fz 5, fz 10)) stA = Ok (Continue, stA) /\
  click (Some (fz 5, fz 15)) EmptyState = Ok (Warning "Not a valid departure cell", EmptyState).
Proof. by vm_compute. Qed.

(** * Further properties *)

(** ** Barrier outlines *)

(** X1. Swapping the coordinates of an outline keeps its length and the
    order of its points, turns each [(lat, lon)] into [(lon, lat)], and is
    undone by swapping again. *)
Theorem swap_coords_involutive {A B : Type} (coords : list (A * B)) :
  swap_coords (swap_coords coords) = coords /\
  length (swap_coords coords) = length coords /\
  (forall i lat lon,
     coords !! i = Some (lat, lon) -> swap_coords coords !! i = Some (lon, lat)).
Proof.
  unfold swap_coords. split; [| split].
  - induction coords as [| [lat lon] coords IH]; simpl; [done |].
    by rewrite IH.
  - apply length_map.
  - intros i lat lon Hi.
    change (map ?f coords) with (f <$> coords).
    by rewrite list_lookup_fmap, Hi.
Qed.

(** The first barrier outline: swapped twice it is itself, it keeps its six
    points, and its second point (43, -85) becomes (-85, 43). *)
Lemma swap_coords_involutive_witness :
  let outline := [(40, -81); (43, -85); (40, -80); (39, -80); (39, -90); (40, -90)] in
  swap_coords (swap_coords outline) = outline /\
  length (swap_coords outline) = 6%nat /\
  swap_coords outline !! 1%nat = Some (-85, 43).
Proof.
  intros outline.
  destruct (swap_coords_involutive outline) as (Hinv & Hlen & Hat).
  split; [exact Hinv |]. split; [exact Hlen |].
  apply Hat. reflexivity.
Defined.

(** ** Role sets of combined tables *)

Lemma role_set_app {Geom} (f : CellRow Geom -> bool) (df1 df2 : list (CellRow Geom)) :
  (list_to_set (map cell (List.filter f (df1 ++ df2))) : gset CellId) =
  list_to_set (map cell (List.filter f df1)) ∪
  list_to_set (map cell (List.filter f df2)).
Proof.
  rewrite List.filter_app, map_app.
  change (map cell ?l1 ++ map cell ?l2) with ((cell <$> l1) ++ (cell <$> l2)).
  apply leibniz_equiv. apply list_to_set_app.
Qed.

Lemma role_set_perm {Geom} (f : CellRow Geom -> bool) (df1 df2 : list (CellRow Geom)) :
  df1 ≡ₚ df2 ->
  (list_to_set (map cell (List.filter f df1)) : gset CellId) =
  list_to_set (map cell (List.filter f df2)).
Proof.
  intros Hperm. apply set_eq. intros c. rewrite !elem_of_role_set.
  split; intros (r & Hin & Hrest); exists r; split; try done.
  - by rewrite <- Hperm.
  - by rewrite Hperm.
Qed.

(** X2. The role sets of two tables put one after the other are the unions
    of their role sets; the order of the rows does not matter; and an empty
    table has no departure and no destination cell. *)
Theorem role_sets_of_concatenation {Geom} (df1 df2 : list (CellRow Geom)) :
  departure_cells (df1 ++ df2) = departure_cells df1 ∪ departure_cells df2 /\
  destination_cells (df1 ++ df2) =
    destination_cells df1 ∪ destination_cells df2 /\
  (df1 ≡ₚ df2 -> classify df1 = classify df2) /\
  classify (@nil (CellRow Geom)) = (∅, ∅).
Proof.
  split; [| split; [| split]].
  - apply role_set_app.
  - apply role_set_app.
  - intros Hperm. unfold classify, departure_cells, destination_cells.
    f_equal; by apply role_set_perm.
  - reflexivity.
Qed.

(** The demo table read in the other order has the same role sets. *)
Lemma role_sets_of_concatenation_witness :
  classify [cellA; cellB] = classify [cellB; cellA].
Proof.
  destruct (role_sets_of_concatenation [cellA; cellB] [cellB; cellA])
    as (_ & _ & Hperm & _).
  apply Hperm. apply perm_swap.
Defined.

(** ** The route lookup on any indexed frame *)

Lemma rows_at_nil_iff (idx : RoutesIdx) (key : RouteKey) :
  rows_at idx key = [] <-> key ∉ idx.*1.
Proof.
  unfold rows_at. induction idx as [| [k v] idx IH].
  - split; [intros _; apply not_elem_of_nil | done].
  - cbn [List.filter fst fmap list_fmap]. rewrite not_elem_of_cons.
    case_bool_decide as Hk; simpl in Hk.
    + split; [discriminate | intros [Hne _]; congruence].
    + rewrite IH. split; [intros H; split; [congruence | done] | by intros [_ H]].
Qed.

(** X3. On any indexed frame the guarded lookup of the script never
    raises: it returns [None] exactly for the keys that the index does not
    hold, and for every key that the index holds a result that consists of
    the rows with that key, all of them and in row order. *)
Theorem get_never_raises (policy : SingleRow) (idx : RoutesIdx) (o d : CellId) :
  (get policy idx o d = Ok None <-> (o, d) ∉ idx.*1) /\
  ((o, d) ∈ idx.*1 ->
     exists res, get policy idx o d = Ok (Some res) /\
                 loc_rows res = rows_at idx (o, d) /\
                 rows_at idx (o, d) <> []) /\
  (exists res, get policy idx o d = Ok res).
Proof.
  pose proof (rows_at_nil_iff idx (o, d)) as Hnil.
  unfold get, index_contains.
  destruct (rows_at idx (o, d)) as [| r rest] eqn:Hrows.
  - assert (Habs : (o, d) ∉ idx.*1) by by apply Hnil.
    rewrite bool_decide_eq_false_2 by done.
    split; [done |]. split; [done | by eexists].
  - assert (Hin : (o, d) ∈ idx.*1).
    { destruct (decide ((o, d) ∈ idx.*1)) as [H | H]; [done |].
      apply Hnil in H. discriminate H. }
    rewrite bool_decide_eq_true_2 by done.
    split; [split; [discriminate | done] |]. split; [| by eexists].
    intros _. eexists. split; [reflexivity |]. split; [apply loc_rows_loc | done].
Qed.

(** ** Highlighting the selected cells *)

(** The rows before the first match are skipped by the filter. *)
Lemma filter_cell_first {Geom} (pre post : list (CellRow Geom)) (r : CellRow Geom) :
  (forall r', r' ∈ pre -> cell r' <> cell r) ->
  exists rest,
    List.filter (fun r' => bool_decide (cell r' = cell r)) (pre ++ r :: post) =
    r :: rest.
Proof.
  induction pre as [| r0 pre IH]; intros Hpre; simpl.
  - rewrite bool_decide_eq_true_2 by done. by eexists.
  - rewrite bool_decide_eq_false_2 by (apply Hpre; by left).
    apply IH. intros r' Hr'. apply Hpre. by right.
Qed.

Lemma draw_h3_layers {Geom} (df : list (CellRow Geom)) (c : CellId)
    (color : string) (l : Layer Geom) :
  l ∈ draw_h3 df c color ->
  exists r, r ∈ df /\ cell r = c /\ l = GeoJson (geometry r) color.
Proof.
  unfold draw_h3.
  destruct (List.filter _ df) as [| r rest] eqn:Hf; [by intros ?%elem_of_nil |].
  intros ->%list_elem_of_singleton.
  assert (Hr : In r (List.filter (fun r => bool_decide (cell r = c)) df))
    by (rewrite Hf; by left).
  apply filter_In in Hr as [Hr Hc]. apply bool_decide_eq_true_1 in Hc.
  exists r. by rewrite list_elem_of_In.
Qed.

Lemma draw_h3_length {Geom} (df : list (CellRow Geom)) (c : CellId) (color : string) :
  (length (draw_h3 df c color) <= 1)%nat.
Proof. unfold draw_h3. destruct (List.filter _ df); simpl; lia. Qed.

Lemma draw_slot_length {Geom} (df : list (CellRow Geom)) (slot : option CellId)
    (color : string) :
  (length (draw_slot df slot color) <= 1)%nat.
Proof.
  unfold draw_slot. destruct (truthy_slot slot); [| simpl; lia].
  destruct slot; [apply draw_h3_length | simpl; lia].
Qed.

Lemma draw_slot_layers {Geom} (df : list (CellRow Geom)) (slot : option CellId)
    (color : string) (l : Layer Geom) :
  l ∈ draw_slot df slot color ->
  exists r, r ∈ df /\ slot = Some (cell r) /\ truthy (cell r) = true /\
            l = GeoJson (geometry r) color.
Proof.
  unfold draw_slot. destruct slot as [c |]; simpl; [| by intros ?%elem_of_nil].
  destruct (truthy c) eqn:Hc; [| by intros ?%elem_of_nil].
  intros (r & Hr & <- & ->)%draw_h3_layers. by exists r.
Qed.

(** X4. [draw_h3] adds nothing for a cell id that the table does not hold,
    and otherwise exactly one layer: the geometry of the first row with that
    id, in the given colour, also when several rows share the id. *)
Theorem draw_h3_first_row {Geom} (df : list (CellRow Geom)) (c : CellId)
    (color : string) :
  (c ∉ map cell df -> draw_h3 df c color = []) /\
  (forall pre r post,
     df = pre ++ r :: post -> cell r = c ->
     (forall r', r' ∈ pre -> cell r' <> c) ->
     draw_h3 df c color = [GeoJson (geometry r) color]) /\
  (length (draw_h3 df c color) <= 1)%nat.
Proof.
  split; [| split; [| apply draw_h3_length]].
  - intros Habs. unfold draw_h3.
    destruct (List.filter _ df) as [| r rest] eqn:Hf; [done |].
    exfalso. apply Habs.
    assert (Hr : In r (List.filter (fun r => bool_decide (cell r = c)) df))
      by (rewrite Hf; by left).
    apply filter_In in Hr as [Hr Hc]. apply bool_decide_eq_true_1 in Hc.
    rewrite <- Hc. by apply list_elem_of_In, in_map.
  - intros pre r post -> <- Hpre. unfold draw_h3.
    by destruct (filter_cell_first pre post r Hpre) as [rest ->].
Qed.

(** With two rows for "A", the first one's box is drawn; "Z" is in no row and
    nothing is drawn for it. *)
Lemma draw_h3_first_row_witness :
  draw_h3 [cellB; cellA; cellA2] (CellStr "A") "green" =
    [GeoJson (geometry cellA) "green"] /\
  draw_h3 [cellB; cellA; cellA2] (CellStr "Z") "green" = [].
Proof.
  split.
  - destruct (draw_h3_first_row [cellB; cellA; cellA2] (CellStr "A") "green")
      as (_ & Hfirst & _).
    apply (Hfirst [cellB] cellA [cellA2]); [reflexivity | reflexivity |].
    intros r' Hr'. apply list_elem_of_singleton in Hr' as ->. discriminate.
  - destruct (draw_h3_first_row [cellB; cellA; cellA2] (CellStr "Z") "green")
      as (Habs & _ & _).
    apply Habs. intros Hin. apply list_elem_of_In in Hin. simpl in Hin.
    destruct Hin as [H | [H | [H | []]]]; discriminate H.
Defined.

(** X5. The selection adds at most two layers, the origin's before the
    target's.  Each of them is the geometry of a row of the table whose id
    is the origin, drawn in green, or the target, drawn in red, and that id
    is true for Python.  With both slots unset nothing is added. *)
Theorem draw_selected_sound {Geom} (df : list (CellRow Geom)) (st : SessionState) :
  (length (draw_selected df st) <= 2)%nat /\
  (forall l, l ∈ draw_selected df st ->
     exists r, r ∈ df /\ truthy (cell r) = true /\
       ((origin st = Some (cell r) /\ l = GeoJson (geometry r) "green") \/
        (target st = Some (cell r) /\ l = GeoJson (geometry r) "red"))) /\
  (forall lo lt, draw_selected df st = [lo; lt] ->
     exists ro rt, lo = GeoJson (geometry ro) "green" /\
                   lt = GeoJson (geometry rt) "red") /\
  (origin st = None -> target st = None -> draw_selected df st = []).
Proof.
  unfold draw_selected. split; [| split; [| split]].
  - rewrite length_app.
    pose proof (draw_slot_length df (origin st) "green").
    pose proof (draw_slot_length df (target st) "red"). lia.
  - intros l [Hl | Hl]%elem_of_app;
      apply draw_slot_layers in Hl as (r & Hr & Hslot & Htruthy & ->);
      exists r; split; [done | | done |]; split; try done; [by left | by right].
  - intros lo lt Heq.
    pose proof (draw_slot_length df (origin st) "green") as Hlo.
    pose proof (draw_slot_length df (target st) "red") as Hlt.
    destruct (draw_slot df (origin st) "green") as [| a [| ? ?]] eqn:Ho;
      destruct (draw_slot df (target st) "red") as [| b [| ? ?]] eqn:Ht;
      simpl in *; try discriminate Heq; try lia.
    injection Heq as -> ->.
    assert (Ha : lo ∈ draw_slot df (origin st) "green") by (rewrite Ho; by left).
    assert (Hb : lt ∈ draw_slot df (target st) "red") by (rewrite Ht; by left).
    apply draw_slot_layers in Ha as (ro & _ & _ & _ & ->).
    apply draw_slot_layers in Hb as (rt & _ & _ & _ & ->).
    by exists ro, rt.
  - intros -> ->. reflexivity.
Qed.

(** With A and B chosen the two boxes are drawn, green then red. *)
Lemma draw_selected_sound_witness :
  draw_selected demo_cells (mkSession (Some (CellStr "A")) (Some (CellStr "B"))) =
    [GeoJson (geometry cellA) "green"; GeoJson (geometry cellB) "red"] /\
  draw_selected demo_cells EmptyState = [].
Proof.
  split; [reflexivity |].
  destruct (draw_selected_sound demo_cells EmptyState) as (_ & _ & _ & Hempty).
  by apply Hempty.
Defined.

(** ** What a click does to the selection *)

(** X6. The handler asks for a rerun exactly when the click changed a slot,
    and a rerun fills exactly one unset slot; a warning is one of the two
    texts and comes with unchanged slots; a click is ignored without a word
    exactly when both slots are set. *)
Theorem trySelect_outcome (departure destination : gset CellId) (c : CellId)
    (st : SessionState) :
  ((trySelect departure destination c st).1 = Rerun <->
     (trySelect departure destination c st).2 <> st) /\
  ((trySelect departure destination c st).1 = Rerun ->
     S (unset_slots (trySelect departure destination c st).2) = unset_slots st) /\
  (forall msg, (trySelect departure destination c st).1 = Warning msg ->
     (trySelect departure destination c st).2 = st /\
     (msg = "Not a valid departure cell" \/ msg = "Not a valid destination cell")) /\
  ((trySelect departure destination c st).1 = Continue <->
     is_Some (origin st) /\ is_Some (target st)).
Proof.
  destruct st as [[o |] [t |]]; unfold trySelect, unset_slots; simpl;
    repeat case_bool_decide; simpl.
  all: split; [split; intros Hx; try done; try congruence; try (by contradict Hx) |].
  all: split; [intros Hx; try done; try congruence |].
  all: split; [intros msg Hx; first [discriminate Hx | injection Hx as <-; split; [done | tauto]] |].
  all: split; [intros Hx; first [discriminate Hx | split; by eexists] | ].
  all: try (by intros _).
  all: intros [[? Ho] [? Ht]]; try discriminate Ho; try discriminate Ht.
Qed.

(** On the demo table from the start state: the click on B is refused and
    changes nothing, the click on A fills a slot. *)
Lemma trySelect_outcome_witness :
  let dep := departure_cells demo_cells in
  let dst := destination_cells demo_cells in
  (trySelect dep dst (CellStr "B") EmptyState).2 = EmptyState /\
  unset_slots (trySelect dep dst (CellStr "A") EmptyState).2 = 1%nat.
Proof.
  intros dep dst. split.
  - destruct (trySelect_outcome dep dst (CellStr "B") EmptyState)
      as (_ & _ & Hwarn & _).
    apply (Hwarn "Not a valid departure cell"). by vm_compute.
  - destruct (trySelect_outcome dep dst (CellStr "A") EmptyState)
      as (_ & Hfill & _ & _).
    apply eq_add_S. apply Hfill. by vm_compute.
Defined.

Lemma unset_slots_le_2 (st : SessionState) : (unset_slots st <= 2)%nat.
Proof. unfold unset_slots. destruct (origin st), (target st); simpl; lia. Qed.

Lemma trySelect_unset_slots (departure destination : gset CellId) (c : CellId)
    (st : SessionState) :
  ((if is_rerun (trySelect departure destination c st).1 then 1 else 0) +
   unset_slots (trySelect departure destination c st).2 = unset_slots st)%nat.
Proof.
  destruct st as [[o |] [t |]]; unfold trySelect, unset_slots; simpl;
    repeat case_bool_decide; simpl; lia.
Qed.

(** X7. Over any sequence of clicks, the number of clicks that are accepted
    is the number of slots that the sequence fills: never more than two, and
    none once both slots are set. *)
Theorem accepted_clicks_fill_slots (departure destination : gset CellId)
    (cs : list CellId) (st : SessionState) :
  (length (List.filter is_rerun (select_trace departure destination cs st)) +
   unset_slots (select_all departure destination cs st) = unset_slots st)%nat /\
  (length (List.filter is_rerun (select_trace departure destination cs st)) <= 2)%nat /\
  length (select_trace departure destination cs st) = length cs.
Proof.
  assert (Hcount : forall cs st,
    (length (List.filter is_rerun (select_trace departure destination cs st)) +
     unset_slots (select_all departure destination cs st) = unset_slots st)%nat).
  { clear cs st. induction cs as [| c cs IH]; intros st; [simpl; lia |].
    pose proof (trySelect_unset_slots departure destination c st) as Hstep.
    specialize (IH (trySelect departure destination c st).2).
    cbn [select_trace select_all foldl List.filter].
    unfold select_all in IH.
    destruct (is_rerun (trySelect departure destination c st).1); cbn [length] in *; lia. }
  split; [apply Hcount |]. split.
  - pose proof (Hcount cs st). pose proof (unset_slots_le_2 st). lia.
  - revert st. induction cs as [| c cs IH]; intros st; simpl; [done |].
    by rewrite IH.
Qed.

(** ** The session dictionary *)

Lemma init_slot_lookup (key k : string) (ss : gmap string (option CellId)) :
  init_slot key ss !! k =
  if decide (key = k) then Some (default None (ss !! key)) else ss !! k.
Proof.
  unfold init_slot. destruct (ss !! key) as [v |] eqn:Hkey.
  - case_decide; [by subst | done].
  - rewrite lookup_insert. by case_decide.
Qed.

(** X8. The initialisation at the start of a run creates the slots that are
    missing, with [None], and leaves every entry that exists as it is: a
    selection made earlier survives the rerun, a second initialisation
    changes nothing, and a new session starts with both slots unset. *)
Theorem init_session_state_keeps_selection (ss : gmap string (option CellId)) :
  session_slots (init_session_state ss) =
    Some (mkSession (default None (ss !! "origin")) (default None (ss !! "target"))) /\
  (forall k v, ss !! k = Some v -> init_session_state ss !! k = Some v) /\
  (forall st, session_slots ss = Some st -> init_session_state ss = ss) /\
  init_session_state (init_session_state ss) = init_session_state ss /\
  session_slots (init_session_state ∅) = Some EmptyState.
Proof.
  assert (Hlook : forall k, init_session_state ss !! k =
    if decide (k = "origin") then Some (default None (ss !! "origin"))
    else if decide (k = "target") then Some (default None (ss !! "target"))
    else ss !! k).
  { intros k. unfold init_session_state. rewrite !init_slot_lookup.
    repeat case_decide; subst; try done. }
  assert (Hkeep : forall st, session_slots ss = Some st -> init_session_state ss = ss).
  { intros st Hst. unfold session_slots in Hst.
    destruct (ss !! "origin") as [o |] eqn:Ho; [| discriminate Hst].
    destruct (ss !! "target") as [t |] eqn:Ht; [| discriminate Hst].
    unfold init_session_state, init_slot. by rewrite Ho, Ht. }
  assert (Hslots : session_slots (init_session_state ss) =
    Some (mkSession (default None (ss !! "origin")) (default None (ss !! "target")))).
  { unfold session_slots. by rewrite !Hlook. }
  split; [exact Hslots |]. split; [| split; [exact Hkeep | split]].
  - intros k v Hk. rewrite Hlook. repeat case_decide; subst; by rewrite ?Hk.
  - unfold init_session_state at 1.
    fold (init_session_state (init_session_state ss)).
    set (ss' := init_session_state ss) in *.
    unfold init_session_state at 1, init_slot.
    assert (Ho : is_Some (ss' !! "origin")) by (unfold ss'; rewrite Hlook; by eexists).
    assert (Ht : is_Some (ss' !! "target")) by (unfold ss'; rewrite Hlook; by eexists).
    destruct Ho as [o Ho], Ht as [t Ht]. by rewrite Ho, Ht.
  - reflexivity.
Qed.

(** A session that holds the origin "A" only: after the initialisation the
    origin is still "A" and the target is [None]. *)
Lemma init_session_state_keeps_selection_witness :
  session_slots (init_session_state {["origin" := Some (CellStr "A")]}) =
    Some (mkSession (Some (CellStr "A")) None) /\
  init_session_state {["origin" := Some (CellStr "A")]} !! "origin" =
    Some (Some (CellStr "A")).
Proof.
  destruct (init_session_state_keeps_selection {["origin" := Some (CellStr "A")]})
    as (Hslots & Hkeep & _).
  split.
  - rewrite Hslots. reflexivity.
  - apply Hkeep. reflexivity.
Defined.

(** ** Positions handed to [iloc] *)

Lemma iloc_Ok_lookup {Geom} (df : list (CellRow Geom)) (idx : list nat)
    (rows : list (CellRow Geom)) :
  iloc df idx = Ok rows -> Forall2 (fun i r => df !! i = Some r) idx rows.
Proof.
  revert rows. induction idx as [| i idx IH]; intros rows; simpl.
  - intros [= <-]. constructor.
  - destruct (df !! i) as [r |] eqn:Hi; [| discriminate].
    destruct (iloc df idx) as [rows' | e]; simpl; [| discriminate].
    intros [= <-]. constructor; [done | by apply IH].
Qed.

Lemma iloc_Raise {Geom} (df : list (CellRow Geom)) (idx : list nat) (e : PyError) :
  iloc df idx = Raise e -> e = IndexError /\ exists i, i ∈ idx /\ df !! i = None.
Proof.
  induction idx as [| i idx IH]; simpl; [discriminate |].
  destruct (df !! i) as [r |] eqn:Hi.
  - destruct (iloc df idx) as [rows' | e']; simpl; [discriminate |].
    intros [= <-]. destruct IH as (-> & j & Hj & Hnone); [done |].
    split; [done |]. exists j. split; [by right | done].
  - intros [= <-]. split; [done |]. exists i. split; [by left | done].
Qed.

(** X9. [iloc] raises [IndexError] exactly when one of the positions is
    past the end of the table, and raises nothing else; when it returns, it
    returns one row per position, in the order of the positions.  The click
    handler raises under the same condition on the positions that the
    index reports, and returns otherwise. *)
Theorem iloc_bounds {Geom} (contains : Geom -> Point -> bool)
    (sindex_intersection : list Geom -> BBox -> list nat)
    (df : list (CellRow Geom)) (idx : list nat) :
  (iloc df idx = Raise IndexError <-> exists i, i ∈ idx /\ (length df <= i)%nat) /\
  iloc df idx <> Raise KeyError /\
  (forall rows, iloc df idx = Ok rows ->
     length rows = length idx /\
     forall k i, idx !! k = Some i -> rows !! k = df !! i) /\
  (forall lon lat,
     resolvePoint contains sindex_intersection df lon lat = Raise IndexError <->
     exists i,
       i ∈ sindex_intersection (map geometry df) (point_bounds (mkPoint lon lat)) /\
       (length df <= i)%nat).
Proof.
  assert (Hraise : forall idx,
    iloc df idx = Raise IndexError <-> exists i, i ∈ idx /\ (length df <= i)%nat).
  { clear idx. intros idx. split.
    - intros (_ & i & Hi & Hnone)%iloc_Raise. exists i. split; [done |].
      by apply lookup_ge_None.
    - intros (i & Hi & Hge). apply lookup_ge_None in Hge.
      destruct (iloc df idx) as [rows | e] eqn:Hres.
      + apply iloc_Ok_lookup in Hres.
        apply list_elem_of_lookup in Hi as [k Hk].
        destruct (Forall2_lookup_l _ _ _ _ _ Hres Hk) as (r & _ & Hr). congruence.
      + by apply iloc_Raise in Hres as [-> _]. }
  split; [apply Hraise |]. split; [| split].
  - intros [H _]%iloc_Raise. discriminate H.
  - intros rows Hrows%iloc_Ok_lookup. split.
    + symmetry. by eapply Forall2_length.
    + intros k i Hk.
      destruct (Forall2_lookup_l _ _ _ _ _ Hrows Hk) as (r & -> & Hr). done.
  - intros lon lat. rewrite <- Hraise. unfold resolvePoint.
    destruct (iloc df _) as [rows | e]; simpl.
    + split; [| discriminate]. by destruct (hits contains rows _).
    + split; intros [= ->]; done.
Qed.

(** The row positions 0 and 1 of the demo table are returned in the order
    asked for; position 2 is past the end. *)
Lemma iloc_bounds_witness :
  iloc demo_cells [1; 0]%nat = Ok [cellB; cellA] /\
  iloc demo_cells [0; 2]%nat = Raise IndexError /\
  resolvePoint box_contains (fun _ _ => [0; 2]%nat) demo_cells (fz 5) (fz 5) =
    Raise IndexError.
Proof.
  destruct (iloc_bounds box_contains (fun _ _ => [0; 2]%nat) demo_cells [0; 2]%nat)
    as (Hraise & _ & _ & Hresolve).
  split; [reflexivity |]. split.
  - apply Hraise. exists 2%nat. split; [in_list | simpl; lia].
  - apply Hresolve. exists 2%nat. split; [in_list | simpl; lia].
Defined.

(** ** Overlapping cells *)

Lemma hits_skip_prefix {Geom} (contains : Geom -> Point -> bool)
    (pre post : list (CellRow Geom)) (r : CellRow Geom) (p : Point) :
  (forall r', r' ∈ pre -> contains (geometry r') p = false) ->
  contains (geometry r) p = true ->
  exists rest, hits contains (pre ++ r :: post) p = r :: rest.
Proof.
  unfold hits. induction pre as [| r0 pre IH]; intros Hpre Hr; simpl.
  - rewrite Hr. by eexists.
  - rewrite (Hpre r0) by by left. apply IH; [| done].
    intros r' Hr'. apply Hpre. by right.
Qed.

(** X10. When several cells contain the clicked point, the click resolves
    to the one that the index lists first: if the positions before position
    [i] in the index's answer hold rows that do not contain the point and
    the row at [i] does, the result is the cell of the row at [i]. *)
Theorem resolvePoint_first_in_index_order {Geom} (contains : Geom -> Point -> bool)
    (sindex_intersection : list Geom -> BBox -> list nat)
    (df : list (CellRow Geom)) (lon lat : spec_float)
    (pre post : list nat) (i : nat) (r : CellRow Geom) :
  sindex_intersection (map geometry df) (point_bounds (mkPoint lon lat)) =
    pre ++ i :: post ->
  (forall j, j ∈ pre ++ i :: post -> is_Some (df !! j)) ->
  (forall j r', j ∈ pre -> df !! j = Some r' ->
     contains (geometry r') (mkPoint lon lat) = false) ->
  df !! i = Some r -> contains (geometry r) (mkPoint lon lat) = true ->
  resolvePoint contains sindex_intersection df lon lat = Ok (Some (cell r)).
Proof.
  intros Hidx Hrange Hpre Hi Hc. unfold resolvePoint. rewrite Hidx.
  rewrite (iloc_in_range df _ Hrange). simpl.
  rewrite omap_app. simpl. rewrite Hi.
  assert (Hskip : forall r', r' ∈ omap (fun j => df !! j) pre ->
            contains (geometry r') (mkPoint lon lat) = false).
  { intros r' (j & Hj & Hr')%list_elem_of_omap. by apply (Hpre j). }
  edestruct (hits_skip_prefix contains (omap (fun j => df !! j) pre))
    as [rest Hrest]; [exact Hskip | exact Hc |].
  by rewrite Hrest.
Qed.

(** The point (7, 5) lies in the boxes of "A" and "C": the index that lists
    the last row first resolves it to "C", the index that lists the rows in
    order resolves it to "A". *)
Lemma resolvePoint_first_in_index_order_witness :
  resolvePoint box_contains (scan_index id) [cellA; cellC; cellB] (fz 7) (fz 5) =
    Ok (Some (CellStr "C")) /\
  resolvePoint box_contains (scan_index_fwd id) [cellA; cellC; cellB] (fz 7) (fz 5) =
    Ok (Some (CellStr "A")).
Proof.
  split.
  - apply (resolvePoint_first_in_index_order box_contains (scan_index id)
             [cellA; cellC; cellB] (fz 7) (fz 5) [] [0%nat] 1%nat cellC);
      [reflexivity | | | reflexivity | reflexivity].
    + intros j Hj. apply list_elem_of_In in Hj. simpl in Hj.
      destruct Hj as [<- | [<- | []]]; by eexists.
    + intros j r' Hj. by apply elem_of_nil in Hj.
  - apply (resolvePoint_first_in_index_order box_contains (scan_index_fwd id)
             [cellA; cellC; cellB] (fz 7) (fz 5) [] [1%nat] 0%nat cellA);
      [reflexivity | | | reflexivity | reflexivity].
    + intros j Hj. apply list_elem_of_In in Hj. simpl in Hj.
      destruct Hj as [<- | [<- | []]]; by eexists.
    + intros j r' Hj. by apply elem_of_nil in Hj.
Defined.

(** ** Clicks under the contract of the geometry library *)

Lemma trySelect_keeps_valid (departure destination : gset CellId) (c : CellId)
    (st : SessionState) :
  selection_valid departure destination st ->
  selection_valid departure destination (trySelect departure destination c st).2.
Proof.
  intros [Ho Ht]. unfold trySelect.
  destruct st as [[o |] [t |]]; simpl in *; try done;
    case_bool_decide; simpl; try done; split; simpl.
  - done.
  - intros t' [= <-]. split; [done | by eexists].
  - by intros o' [= <-].
  - intros t' Ht'. destruct (Ht t' Ht') as [_ [? [=]]].
  - by intros o' [= <-].
  - done.
Qed.

Lemma reset_valid (departure destination : gset CellId) (st : SessionState) :
  selection_valid departure destination (reset st).
Proof. split; simpl; discriminate. Qed.

Section Contract.

Context {Geom : Type}.
Variable contains : Geom -> Point -> bool.
Variable envelope : Geom -> BBox.
Variable sindex_intersection : list Geom -> BBox -> list nat.

Hypothesis sindex_spec : forall (gs : list Geom) (q : BBox) (i : nat),
  i ∈ sindex_intersection gs q <->
  exists g, gs !! i = Some g /\ bbox_intersects (envelope g) q = true.

Hypothesis contains_envelope : forall (g : Geom) (p : Point),
  contains g p = true -> bbox_intersects (envelope g) (point_bounds p) = true.

Implicit Types (df : list (CellRow Geom)) (st : SessionState).

(** The answer of the handler, case by case. *)
Lemma resolvePoint_cases df lon lat :
  (resolvePoint contains sindex_intersection df lon lat = Ok None /\
   forall r, r ∈ df -> contains (geometry r) (mkPoint lon lat) = false) \/
  (exists r, r ∈ df /\ contains (geometry r) (mkPoint lon lat) = true /\
     resolvePoint contains sindex_intersection df lon lat = Ok (Some (cell r))).
Proof.
  rewrite (resolvePoint_first_hit contains envelope sindex_intersection sindex_spec).
  destruct (hits _ _ _) as [| r1 rest] eqn:Hh.
  - left. split; [done |]. intros r [i Hi]%list_elem_of_lookup.
    destruct (contains (geometry r) (mkPoint lon lat)) eqn:Hc; [| done].
    pose proof (hits_complete contains envelope sindex_intersection sindex_spec
                  contains_envelope df _ i r Hi Hc) as Hin.
    rewrite Hh in Hin. by apply elem_of_nil in Hin.
  - right. exists r1.
    destruct (elem_of_hits contains sindex_intersection df
                (point_bounds (mkPoint lon lat)) (mkPoint lon lat) r1)
      as (j & Hj & Hcj); [rewrite Hh; by left |].
    split; [apply list_elem_of_lookup; by exists j |]. split; done.
Qed.

(** X11. Whatever the overlaps between cells, a click resolves to a cell
    only if a row with that cell id contains the clicked point, it resolves
    to [None] exactly when no row contains the point, and the resolution
    never raises. *)
Theorem resolvePoint_sound_complete df (lon lat : spec_float) :
  (forall c, resolvePoint contains sindex_intersection df lon lat = Ok (Some c) ->
     exists r, r ∈ df /\ cell r = c /\
               contains (geometry r) (mkPoint lon lat) = true) /\
  (resolvePoint contains sindex_intersection df lon lat = Ok None <->
     forall r, r ∈ df -> contains (geometry r) (mkPoint lon lat) = false) /\
  (exists res, resolvePoint contains sindex_intersection df lon lat = Ok res).
Proof.
  destruct (resolvePoint_cases df lon lat)
    as [[Hnone Hout] | (r & Hr & Hc & Hsome)].
  - rewrite Hnone. split; [discriminate |]. split; [done | by eexists].
  - rewrite Hsome. split; [| split; [| by eexists]].
    + intros c [= <-]. by exists r.
    + split; [discriminate |]. intros Hout. rewrite (Hout r Hr) in Hc.
      discriminate Hc.
Qed.

(** X12. The handler never raises.  It does nothing when the map reports no
    click and when the clicked point lies in no cell: the slots stay and no
    warning is shown.  A click on a point that some row contains always
    reaches the selection logic, with the cell id of a row that contains the
    point; when the rows that contain the point all carry one cell id, the
    click is the selection of that cell. *)
Theorem handle_click_dispatch df st :
  handle_click contains sindex_intersection df None st = Ok (Continue, st) /\
  (forall lat lon,
     (forall r, r ∈ df -> contains (geometry r) (mkPoint lon lat) = false) ->
     handle_click contains sindex_intersection df (Some (lat, lon)) st =
       Ok (Continue, st)) /\
  (forall lat lon r,
     r ∈ df -> contains (geometry r) (mkPoint lon lat) = true ->
     exists r', r' ∈ df /\ contains (geometry r') (mkPoint lon lat) = true /\
       handle_click contains sindex_intersection df (Some (lat, lon)) st =
         Ok (trySelect (departure_cells df) (destination_cells df) (cell r') st)) /\
  (forall lat lon r,
     r ∈ df -> contains (geometry r) (mkPoint lon lat) = true ->
     (forall r', r' ∈ df -> contains (geometry r') (mkPoint lon lat) = true ->
        cell r' = cell r) ->
     handle_click contains sindex_intersection df (Some (lat, lon)) st =
       Ok (trySelect (departure_cells df) (destination_cells df) (cell r) st)) /\
  (forall last_clicked,
     exists res,
       handle_click contains sindex_intersection df last_clicked st = Ok res).
Proof.
  assert (Hin : forall lat lon r,
    r ∈ df -> contains (geometry r) (mkPoint lon lat) = true ->
    exists r', r' ∈ df /\ contains (geometry r') (mkPoint lon lat) = true /\
      handle_click contains sindex_intersection df (Some (lat, lon)) st =
        Ok (trySelect (departure_cells df) (destination_cells df) (cell r') st)).
  { intros lat lon r Hr Hc. unfold handle_click.
    destruct (resolvePoint_cases df lon lat)
      as [[_ Hout] | (r' & Hr' & Hc' & ->)].
    - rewrite (Hout r Hr) in Hc. discriminate Hc.
    - by exists r'. }
  split; [done |]. split; [| split; [exact Hin | split]].
  - intros lat lon Hout. unfold handle_click.
    destruct (resolvePoint_cases df lon lat)
      as [[-> _] | (r & Hr & Hc & _)]; [done |].
    rewrite (Hout r Hr) in Hc. discriminate Hc.
  - intros lat lon r Hr Hc Hsame.
    destruct (Hin lat lon r Hr Hc) as (r' & Hr' & Hc' & ->).
    by rewrite (Hsame r' Hr' Hc').
  - intros [[lat lon] |]; [| by eexists]. unfold handle_click.
    destruct (resolvePoint_cases df lon lat)
      as [[-> _] | (r & _ & _ & ->)]; by eexists.
Qed.

End Contract.

(** On the demo table: no click at all and a click off the cells change
    nothing; a click at (5, 5), which the box of "A" alone contains, is the
    selection of "A" and sets the origin. *)
Lemma handle_click_dispatch_witness :
  let click := handle_click box_contains (scan_index id) demo_cells in
  click None EmptyState = Ok (Continue, EmptyState) /\
  click (Some (fz 5, fz 25)) EmptyState = Ok (Continue, EmptyState) /\
  click (Some (fz 5, fz 5)) EmptyState =
    Ok (Rerun, mkSession (Some (CellStr "A")) None).
Proof.
  intros click.
  destruct (handle_click_dispatch box_contains id (scan_index id)
              (scan_index_spec id) box_contains_envelope demo_cells EmptyState)
    as (Hnone & Hout & _ & Hone & _).
  split; [exact Hnone |]. split.
  - apply Hout. intros r Hr. unfold demo_cells in Hr.
    repeat (apply elem_of_cons in Hr as [-> | Hr]); [reflexivity | reflexivity |].
    by apply elem_of_nil in Hr.
  - unfold click. rewrite (Hone (fz 5) (fz 5) cellA).
    + by vm_compute.
    + in_list.
    + reflexivity.
    + intros r' Hr' Hc'. unfold demo_cells in Hr'.
      repeat (apply elem_of_cons in Hr' as [-> | Hr']);
        [reflexivity | discriminate Hc' |].
      by apply elem_of_nil in Hr'.
Defined.

(** With "A", "C" and "B" overlapping, the point (7, 5) resolves to a cell
    whose box contains it, and the point (25, 5) to none. *)
Lemma resolvePoint_sound_complete_witness :
  (exists r, r ∈ [cellA; cellC; cellB] /\
     resolvePoint box_contains (scan_index id) [cellA; cellC; cellB] (fz 7) (fz 5) =
       Ok (Some (cell r)) /\
     box_contains (geometry r) (mkPoint (fz 7) (fz 5)) = true) /\
  resolvePoint box_contains (scan_index id) [cellA; cellC; cellB] (fz 25) (fz 5) =
    Ok None.
Proof.
  split.
  - destruct (resolvePoint_sound_complete box_contains id (scan_index id)
                (scan_index_spec id) box_contains_envelope
                [cellA; cellC; cellB] (fz 7) (fz 5)) as (Hsound & _ & _).
    destruct (Hsound (CellStr "C")) as (r & Hr & Hcell & Hc); [reflexivity |].
    exists r. split; [done |]. split; [| done]. by rewrite Hcell.
  - destruct (resolvePoint_sound_complete box_contains id (scan_index id)
                (scan_index_spec id) box_contains_envelope
                [cellA; cellC; cellB] (fz 25) (fz 5)) as (_ & Hnone & _).
    apply Hnone. intros r Hr.
    repeat (apply elem_of_cons in Hr as [-> | Hr]);
      [reflexivity | reflexivity | reflexivity |].
    by apply elem_of_nil in Hr.
Defined.

(** ** The slots over a whole session *)

Lemma handle_click_keeps_valid {Geom} (contains : Geom -> Point -> bool)
    (sindex_intersection : list Geom -> BBox -> list nat)
    (df : list (CellRow Geom)) (last_clicked : option (spec_float * spec_float))
    (st : SessionState) (out : Outcome) (st' : SessionState) :
  handle_click contains sindex_intersection df last_clicked st = Ok (out, st') ->
  selection_valid (departure_cells df) (destination_cells df) st ->
  selection_valid (departure_cells df) (destination_cells df) st'.
Proof.
  intros Hclick Hvalid. unfold handle_click in Hclick.
  destruct last_clicked as [[lat lon] |]; [| by injection Hclick as _ <-].
  destruct (resolvePoint contains sindex_intersection df lon lat)
    as [[c |] | e]; simpl in Hclick; [| by injection Hclick as _ <- | discriminate].
  injection Hclick as Hsel.
  change st' with (out, st').2. rewrite <- Hsel. by apply trySelect_keeps_valid.
Qed.

(** X13. Whatever the geometry library and the spatial index do, and whether
    or not runs raise, the slots keep their meaning over a whole session:
    from a state in which a chosen origin is a departure cell, a chosen
    target is a destination cell and no target is chosen without an origin
    (the start state is one), every sequence of runs leads to a state of
    that kind. *)
Theorem slots_steps_keep_selection_valid {Geom} (contains : Geom -> Point -> bool)
    (sindex_intersection : list Geom -> BBox -> list nat)
    (df : list (CellRow Geom)) (st st' : SessionState) :
  selection_valid (departure_cells df) (destination_cells df) st ->
  rtc (slots_step contains sindex_intersection df) st st' ->
  selection_valid (departure_cells df) (destination_cells df) st'.
Proof.
  intros Hvalid Hsteps. induction Hsteps as [st | st st1 st2 Hstep _ IH]; [done |].
  apply IH. destruct Hstep as [st | st | st last_clicked out st' Hclick].
  - done.
  - apply reset_valid.
  - by eapply handle_click_keeps_valid.
Qed.

(** On the demo table from the start state: a click in A, a click in B, a
    press on Reset, a run that changes nothing and a click in A lead to the
    state with A as origin and no target, and A is a departure cell. *)
Lemma slots_steps_keep_selection_valid_witness :
  selection_valid (departure_cells demo_cells) (destination_cells demo_cells)
    (mkSession (Some (CellStr "A")) None) /\
  (CellStr "A" ∈ departure_cells demo_cells).
Proof.
  assert (Hvalid : selection_valid (departure_cells demo_cells)
            (destination_cells demo_cells) (mkSession (Some (CellStr "A")) None)).
  { apply (slots_steps_keep_selection_valid box_contains (scan_index id)
             demo_cells EmptyState).
    - split; simpl; discriminate.
    - eapply rtc_l.
      { apply (slots_click _ _ _ _ (Some (fz 5, fz 5)) Rerun
                 (mkSession (Some (CellStr "A")) None)). by vm_compute. }
      eapply rtc_l.
      { apply (slots_click _ _ _ _ (Some (fz 5, fz 15)) Rerun
                 (mkSession (Some (CellStr "A")) (Some (CellStr "B")))).
        by vm_compute. }
      eapply rtc_l; [apply slots_reset |].
      eapply rtc_l; [apply slots_unchanged |].
      eapply rtc_l; [| apply rtc_refl].
      apply (slots_click _ _ _ _ (Some (fz 5, fz 5)) Rerun
               (mkSession (Some (CellStr "A")) None)). by vm_compute. }
  split; [exact Hvalid |].
  destruct Hvalid as [Ho _]. by apply Ho.
Defined.
